(** * The WebSocket channel of the ASTERIX viewer ([ui/js/websocket.js])

    A shallow embedding of the [WS] module: the closure variables
    [socket], [reconnectTimer] and [handlers], the four socket listeners
    installed by [connect], [scheduleReconnect] and the public API
    [send], [on], [off], [isConnected].

    Host facilities the module calls (the console, timers, the WebSocket
    object, the DOM status indicator, [JSON.parse]) are modelled next to the
    module state; [JSON.stringify], number-to-string conversion and the
    subscribers' callbacks are section variables. *)

From Stdlib Require Import ZArith NArith Ascii String List Bool Lia.
From stdpp Require Import gmap strings list pretty.

Local Open Scope string_scope.
Local Open Scope list_scope.

(** ** JavaScript values that reach the channel *)

(** A number written in a JSON text: [(-1)^neg * mant * 10^exp10], kept as the
    exact decimal. *)
Record number := Num { num_neg : bool; num_mant : N; num_exp10 : Z }.

(** JSON data.  An object keeps its members in source order, duplicates
    included; a property read takes the last one, as [JSON.parse] does. *)
#[warnings="-register-all"]
Inductive value :=
| VNull
| VBool (b : bool)
| VNum (n : number)
| VStr (s : string)
| VArr (items : list value)
| VObj (members : list (string * value)).

(** The decimal rounds to [+0] or [-0] as an IEEE binary64: its magnitude is at
    most [2^-1075], half the least subnormal (a tie goes to the even
    mantissa, which is zero). *)
Definition number_is_zero (n : number) : bool :=
  (num_mant n =? 0)%N
  || ((num_exp10 n <? 0)%Z
      && (Z.of_N (num_mant n) * 2 ^ 1075 <=? 10 ^ (- num_exp10 n))%Z).

(** [ToBoolean]. *)
Definition truthy (v : value) : bool :=
  match v with
  | VNull => false
  | VBool b => b
  | VNum n => negb (number_is_zero n)
  | VStr s => negb (String.eqb s "")
  | VArr _ | VObj _ => true
  end.

(** [!x] for a property read, where [None] is [undefined]. *)
Definition falsy (x : option value) : bool :=
  match x with
  | None => true
  | Some v => negb (truthy v)
  end.

(** Last member named [k], or [undefined]. *)
Fixpoint member (k : string) (members : list (string * value)) : option value :=
  match members with
  | [] => None
  | (k', v) :: rest =>
      match member k rest with
      | Some v' => Some v'
      | None => if String.eqb k' k then Some v else None
      end
  end.

(** ** [JSON.parse] *)

Module JSON.

Local Open Scope char_scope.

Definition is_ws (c : ascii) : bool :=
  match c with
  | " " | "009" | "010" | "013" => true
  | _ => false
  end.

Fixpoint skip_ws (s : list ascii) : list ascii :=
  match s with
  | c :: r => if is_ws c then skip_ws r else s
  | [] => []
  end.

Definition digit (c : ascii) : option N :=
  let n := N_of_ascii c in
  if ((48 <=? n) && (n <=? 57))%N then Some (n - 48)%N else None.

Definition hex (c : ascii) : option N :=
  let n := N_of_ascii c in
  if ((48 <=? n) && (n <=? 57))%N then Some (n - 48)%N
  else if ((65 <=? n) && (n <=? 70))%N then Some (n - 55)%N
  else if ((97 <=? n) && (n <=? 102))%N then Some (n - 87)%N
  else None.

Definition hex4 (a b c d : ascii) : option N :=
  match hex a, hex b, hex c, hex d with
  | Some x, Some y, Some z, Some w => Some (((x * 16 + y) * 16 + z) * 16 + w)%N
  | _, _, _, _ => None
  end.

(** A code point as bytes (UTF-8; a lone surrogate takes the three-byte form,
    so distinct JavaScript strings stay distinct). *)
Definition utf8 (cp : N) : list ascii :=
  let byte n := ascii_of_N n in
  if (cp <? 128)%N then [byte cp]
  else if (cp <? 2048)%N then
    [byte (192 + cp / 64); byte (128 + cp mod 64)]%N
  else if (cp <? 65536)%N then
    [byte (224 + cp / 4096); byte (128 + (cp / 64) mod 64);
     byte (128 + cp mod 64)]%N
  else
    [byte (240 + cp / 262144); byte (128 + (cp / 4096) mod 64);
     byte (128 + (cp / 64) mod 64); byte (128 + cp mod 64)]%N.

Definition is_high (u : N) : bool := ((55296 <=? u) && (u <=? 56319))%N.
Definition is_low (u : N) : bool := ((56320 <=? u) && (u <=? 57343))%N.

(** The characters of a string literal after its opening quote, up to and
    including the closing quote. *)
Fixpoint chars (s : list ascii) : option (list ascii * list ascii) :=
  let cons c r :=
    match r with
    | Some (cs, rest) => Some (c ++ cs, rest)
    | None => None
    end in
  match s with
  | [] => None
  | "034" :: r => Some ([], r)
  | "\" :: e :: r =>
      match e with
      | "034" => cons [e] (chars r)
      | "\" => cons [e] (chars r)
      | "/" => cons [e] (chars r)
      | "b" => cons ["008"] (chars r)
      | "f" => cons ["012"] (chars r)
      | "n" => cons ["010"] (chars r)
      | "r" => cons ["013"] (chars r)
      | "t" => cons ["009"] (chars r)
      | "u" =>
          match r with
          | a :: b :: c :: d :: r1 =>
              match hex4 a b c d with
              | None => None
              | Some u =>
                  match r1 with
                  | "\" :: "u" :: a' :: b' :: c' :: d' :: r2 =>
                      match hex4 a' b' c' d' with
                      | Some l =>
                          if is_high u && is_low l
                          then cons (utf8 (65536 + (u - 55296) * 1024
                                                 + (l - 56320))%N) (chars r2)
                          else cons (utf8 u) (chars r1)
                      | None => cons (utf8 u) (chars r1)
                      end
                  | _ => cons (utf8 u) (chars r1)
                  end
              end
          | _ => None
          end
      | _ => None
      end
  | c :: r => if (N_of_ascii c <? 32)%N then None else cons [c] (chars r)
  end.

(** A maximal run of decimal digits: its value, its length, the rest. *)
Fixpoint digits (acc : N) (len : nat) (s : list ascii) : N * nat * list ascii :=
  match s with
  | c :: r =>
      match digit c with
      | Some d => digits (acc * 10 + d)%N (S len) r
      | None => (acc, len, s)
      end
  | [] => (acc, len, s)
  end.

(** An optional minus sign; an integer part, [0] or a run of digits not
    starting with [0]; an optional fraction, a dot and one digit or more; an
    optional exponent, [e] or [E], an optional sign, one digit or more. *)
Definition number_literal (s : list ascii) : option (number * list ascii) :=
  let '(neg, s) := match s with "-" :: r => (true, r) | _ => (false, s) end in
  let int :=
    match s with
    | "0" :: r => Some (0%N, r)
    | _ => let '(n, len, r) := digits 0 0 s in
           match len with O => None | S _ => Some (n, r) end
    end in
  match int with
  | None => None
  | Some (i, s) =>
      let frac :=
        match s with
        | "." :: r => let '(n, len, r') := digits i 0 r in
                      match len with O => None | S _ => Some (n, len, r') end
        | _ => Some (i, O, s)
        end in
      match frac with
      | None => None
      | Some (m, flen, s) =>
          let expo :=
            match s with
            | "e" :: r | "E" :: r =>
                let '(sgn, r) :=
                  match r with
                  | "+" :: r' => (1%Z, r')
                  | "-" :: r' => ((-1)%Z, r')
                  | _ => (1%Z, r)
                  end in
                let '(n, len, r') := digits 0 0 r in
                match len with
                | O => None
                | S _ => Some ((sgn * Z.of_N n)%Z, r')
                end
            | _ => Some (0%Z, s)
            end in
          match expo with
          | None => None
          | Some (e, s) => Some (Num neg m (e - Z.of_nat flen), s)
          end
      end
  end.

(** One JSON value at the head of [s].  The fuel bounds the nesting and the
    number of elements; [parse] gives more than any text can use. *)
Fixpoint value_ (fuel : nat) (s : list ascii) : option (value * list ascii) :=
  match fuel with
  | O => None
  | S fuel =>
      match skip_ws s with
      | "n" :: "u" :: "l" :: "l" :: r => Some (VNull, r)
      | "t" :: "r" :: "u" :: "e" :: r => Some (VBool true, r)
      | "f" :: "a" :: "l" :: "s" :: "e" :: r => Some (VBool false, r)
      | "034" :: r =>
          match chars r with
          | Some (cs, r') => Some (VStr (string_of_list_ascii cs), r')
          | None => None
          end
      | "[" :: r =>
          match skip_ws r with
          | "]" :: r' => Some (VArr [], r')
          | _ =>
              match elements fuel r with
              | Some (vs, r') => Some (VArr vs, r')
              | None => None
              end
          end
      | "{" :: r =>
          match skip_ws r with
          | "}" :: r' => Some (VObj [], r')
          | _ =>
              match members fuel r with
              | Some (ms, r') => Some (VObj ms, r')
              | None => None
              end
          end
      | r =>
          match number_literal r with
          | Some (n, r') => Some (VNum n, r')
          | None => None
          end
      end
  end

with elements (fuel : nat) (s : list ascii) : option (list value * list ascii) :=
  match fuel with
  | O => None
  | S fuel =>
      match value_ fuel s with
      | None => None
      | Some (v, r) =>
          match skip_ws r with
          | "," :: r' =>
              match elements fuel r' with
              | Some (vs, r'') => Some (v :: vs, r'')
              | None => None
              end
          | "]" :: r' => Some ([v], r')
          | _ => None
          end
      end
  end

with members (fuel : nat) (s : list ascii)
  : option (list (string * value) * list ascii) :=
  match fuel with
  | O => None
  | S fuel =>
      match skip_ws s with
      | "034" :: r =>
          match chars r with
          | None => None
          | Some (k, r1) =>
              match skip_ws r1 with
              | ":" :: r2 =>
                  match value_ fuel r2 with
                  | None => None
                  | Some (v, r3) =>
                      let key := string_of_list_ascii k in
                      match skip_ws r3 with
                      | "," :: r4 =>
                          match members fuel r4 with
                          | Some (ms, r5) => Some ((key, v) :: ms, r5)
                          | None => None
                          end
                      | "}" :: r4 => Some ([(key, v)], r4)
                      | _ => None
                      end
                  end
              | _ => None
              end
          end
      | _ => None
      end
  end.

(** [JSON.parse(text)]: [None] stands for the [SyntaxError] it throws. *)
Definition parse (text : string) : option value :=
  let s := list_ascii_of_string text in
  match value_ (2 * length s + 2) s with
  | Some (v, r) => match skip_ws r with [] => Some v | _ => None end
  | None => None
  end.

End JSON.

(** A JSON text written with single quotes for its double quotes. *)
Definition dq (text : string) : string :=
  string_of_list_ascii
    (map (fun c => if Ascii.eqb c "'" then "034"%char else c)
         (list_ascii_of_string text)).

(** ** The module state and its host *)

(** A subscriber is a function reference; [cb !== callback] compares
    references, here their numbers. *)
Definition handler := nat.

Inductive exception :=
| TypeError (msg : string)
| InvalidStateError
| Raised (what : nat).

(** What a call [cb(payload)] does to its caller. *)
Inductive outcome :=
| Returns
| Throws (e : exception).

Inductive level := Log | Warn | Error.

Inductive arg :=
| AStr (s : string)
| AVal (v : value)
| AInt (n : Z)
| AExn (e : exception)
| AEvent.

(** What the module does to the outside, in order. *)
Inductive effect :=
| Console (l : level) (args : list arg)
| Invoke (cb : handler) (payload : value)
| Transmit (data : string)
| Construct (url : string).

(** [WebSocket.CONNECTING], [OPEN], [CLOSING], [CLOSED]. *)
Definition CONNECTING : Z := 0.
Definition OPEN : Z := 1.
Definition CLOSING : Z := 2.
Definition CLOSED : Z := 3.

Record WebSocket := { url : string; readyState : Z }.

(** The three arguments [setStatus] is called with. *)
Inductive status := connected | disconnected | loading.

Record World := {
  (* the closure variables of the module *)
  socket : option WebSocket;
  reconnectTimer : option nat;
  handlers : gmap string (list handler);
  (* the host: pending timeouts (id, delay), the next timer id, the
     [ws-dot] class and [ws-label] text when both elements exist, and
     everything done so far *)
  timers : list (nat * Z);
  next_timer : nat;
  indicator : option (string * string);
  trace : list effect
}.

Definition set_socket (x : option WebSocket) (w : World) : World :=
  {| socket := x; reconnectTimer := reconnectTimer w; handlers := handlers w;
     timers := timers w; next_timer := next_timer w;
     indicator := indicator w; trace := trace w |}.

Definition set_reconnectTimer (x : option nat) (w : World) : World :=
  {| socket := socket w; reconnectTimer := x; handlers := handlers w;
     timers := timers w; next_timer := next_timer w;
     indicator := indicator w; trace := trace w |}.

Definition set_handlers (x : gmap string (list handler)) (w : World) : World :=
  {| socket := socket w; reconnectTimer := reconnectTimer w; handlers := x;
     timers := timers w; next_timer := next_timer w;
     indicator := indicator w; trace := trace w |}.

Definition set_timers (x : list (nat * Z)) (n : nat) (w : World) : World :=
  {| socket := socket w; reconnectTimer := reconnectTimer w;
     handlers := handlers w; timers := x; next_timer := n;
     indicator := indicator w; trace := trace w |}.

Definition set_indicator (x : option (string * string)) (w : World) : World :=
  {| socket := socket w; reconnectTimer := reconnectTimer w;
     handlers := handlers w; timers := timers w; next_timer := next_timer w;
     indicator := x; trace := trace w |}.

Definition set_trace (x : list effect) (w : World) : World :=
  {| socket := socket w; reconnectTimer := reconnectTimer w;
     handlers := handlers w; timers := timers w; next_timer := next_timer w;
     indicator := indicator w; trace := x |}.

(** ** Statements: a state monad with exceptions *)

Inductive completion (A : Type) :=
| Normal (a : A)
| Throw (e : exception).
Arguments Normal {A} a.
Arguments Throw {A} e.

Definition M (A : Type) : Type := World -> World * completion A.

#[global] Instance M_ret : MRet M := fun A a w => (w, Normal a).

#[global] Instance M_bind : MBind M := fun A B f m w =>
  match m w with
  | (w', Normal a) => f a w'
  | (w', Throw e) => (w', Throw e)
  end.

Definition throw {A} (e : exception) : M A := fun w => (w, Throw e).
Definition read {A} (f : World -> A) : M A := fun w => (w, Normal (f w)).
Definition update (f : World -> World) : M unit := fun w => (f w, Normal tt).

(** [try { body } catch (e) { handle(e) }] *)
Definition try_catch {A} (body : M A) (handle : exception -> M A) : M A :=
  fun w =>
    match body w with
    | (w', Throw e) => handle e w'
    | r => r
    end.

(** [xs.forEach(f)] *)
Fixpoint forEach {A} (xs : list A) (f : A -> M unit) : M unit :=
  match xs with
  | [] => mret tt
  | x :: rest => f x ;; forEach rest f
  end.

Definition emit (e : effect) : M unit :=
  update (fun w => set_trace (trace w ++ [e]) w).

Definition console (l : level) (args : list arg) : M unit :=
  emit (Console l args).

(** [clearTimeout(id)]: [null] and ids that are not pending do nothing. *)
Definition clearTimeout (id : option nat) : M unit :=
  match id with
  | None => mret tt
  | Some i =>
      update (fun w =>
        set_timers (filter (fun t => t.1 ≠ i) (timers w)) (next_timer w) w)
  end.

(** [setTimeout(callback, delay)]; the module has one callback, the
    reconnection. *)
Definition setTimeout (delay : Z) : M nat :=
  i ← read next_timer;
  update (fun w => set_timers (timers w ++ [(i, delay)]) (S i) w) ;;
  mret i.

(** The members every object literal inherits from [Object.prototype]. *)
Definition Object_prototype : list string :=
  ["constructor"; "__defineGetter__"; "__defineSetter__"; "hasOwnProperty";
   "__lookupGetter__"; "__lookupSetter__"; "isPrototypeOf";
   "propertyIsEnumerable"; "toString"; "valueOf"; "__proto__";
   "toLocaleString"].

(** What [handlers[key]] evaluates to: an array the module stored, a member
    inherited from [Object.prototype] (a function, or the prototype itself
    for [__proto__]: truthy, and without [push], [filter] or [forEach]), or
    [undefined]. *)
Inductive slot :=
| Array (cbs : list handler)
| Inherited (name : string)
| Undefined.

Definition handlers_get (key : string) : M slot :=
  read (fun w =>
    match handlers w !! key with
    | Some cbs => Array cbs
    | None => if bool_decide (key ∈ Object_prototype) then Inherited key
              else Undefined
    end).

Definition handlers_set (key : string) (cbs : list handler) : M unit :=
  update (fun w => set_handlers (<[key := cbs]> (handlers w)) w).

(** [payload.type]: [None] is [undefined]; reading a property of [null]
    throws. *)
Definition get_type (payload : value) : M (option value) :=
  match payload with
  | VNull => throw (TypeError "Cannot read properties of null (reading 'type')")
  | VObj members => mret (member "type" members)
  | _ => mret None
  end.

(** ** A platform to run examples on *)

Module Sample.

(** Stands in for the conversion of a number to a string: exact on the
    integers below [2^53] written without fraction or exponent. *)
Definition Number_toString (n : number) : string :=
  if (num_exp10 n =? 0)%Z then
    (if num_neg n && negb (num_mant n =? 0)%N then "-" else "")
    +:+ pretty (num_mant n)
  else pretty (num_mant n) +:+ "e" +:+ pretty (num_exp10 n).

(** Subscribers with an odd number throw, whatever they are given; the
    others return. *)
Definition callback (cb : handler) (payload : value) (seen : list effect)
    : outcome :=
  if Nat.odd cb then Throws (Raised cb) else Returns.

Definition hex_digit (n : N) : ascii :=
  if (n <? 10)%N then ascii_of_N (48 + n) else ascii_of_N (87 + n).

(** A character inside a JSON string literal. *)
Definition quote_char (c : ascii) : list ascii :=
  match c with
  | "034" => ["092"; "034"]
  | "092" => ["092"; "092"]
  | "008" => ["092"; "b"]
  | "012" => ["092"; "f"]
  | "010" => ["092"; "n"]
  | "013" => ["092"; "r"]
  | "009" => ["092"; "t"]
  | _ =>
      let n := N_of_ascii c in
      if (n <? 32)%N
      then ["092"; "u"; "0"; "0"; hex_digit (n / 16); hex_digit (n mod 16)]
      else [c]
  end%char.

Definition quote (s : string) : string :=
  string_of_list_ascii
    ("034"%char :: concat (map quote_char (list_ascii_of_string s))
       ++ ["034"%char]).

(** Stands in for [JSON.stringify]: exact on values whose object keys are
    distinct and are not array indices, and whose strings have no lone
    surrogate. *)
Fixpoint JSON_stringify (v : value) : string :=
  match v with
  | VNull => "null"
  | VBool true => "true"
  | VBool false => "false"
  | VNum n => Number_toString n
  | VStr s => quote s
  | VArr items => "[" +:+ String.concat "," (map JSON_stringify items) +:+ "]"
  | VObj members =>
      "{" +:+ String.concat ","
                (map (fun m => quote m.1 +:+ ":" +:+ JSON_stringify m.2) members)
          +:+ "}"
  end.

End Sample.

(** Subscribers that never throw. *)
Definition quiet (cb : handler) (payload : value) (seen : list effect)
    : outcome := Returns.

(** ** The module *)

Section WS.

(** [String(x)] for a number, [JSON.stringify], and what each subscriber
    does when called, given the payload and everything done before.  A
    subscriber is code of another module: its call is recorded and it
    returns or throws; it does not call [WS] back while it runs. *)
Variable Number_toString : number -> string.
Variable JSON_stringify : value -> string.
Variable callback : handler -> value -> list effect -> outcome.

Definition WS_URL : string := "ws://127.0.0.1:8765".
Definition RECONNECT_DELAY : Z := 3000.

(** [String(v)], which is also the property key [v] stands for and its
    text inside a template literal; [None] when the conversion throws.  An
    object is converted by its [toString]: that of [Object.prototype], which
    gives ["[object Object]"], unless the object has a member of that name
    itself, which coming from JSON is no function; [valueOf], tried next, is
    then no function either or returns the object, and the conversion ends
    in a [TypeError].  An array is joined: its elements are converted in
    turn, [null] to the empty string. *)
Fixpoint to_string (v : value) : option string :=
  match v with
  | VNull => Some "null"
  | VBool true => Some "true"
  | VBool false => Some "false"
  | VNum n => Some (Number_toString n)
  | VStr s => Some s
  | VArr items =>
      String.concat "," <$>
        (fix join (items : list value) : option (list string) :=
           match items with
           | [] => Some []
           | x :: rest =>
               match match x with VNull => Some "" | _ => to_string x end with
               | Some text => cons text <$> join rest
               | None => None
               end
           end) items
  | VObj members =>
      match member "toString" members with
      | Some _ => None
      | None => Some "[object Object]"
      end
  end.

(** [String(x)] of a property read, [undefined] included: the key that
    [handlers[x]] is looked up under, and the text of [${x}]. *)
Definition to_key (x : option value) : M string :=
  match x with
  | Some v =>
      match to_string v with
      | Some text => mret text
      | None => throw (TypeError "Cannot convert object to primitive value")
      end
  | None => mret "undefined"
  end.

Definition setStatus (state : status) : M unit :=
  update (fun w =>
    match indicator w with
    | None => w
    | Some _ =>
        let name := match state with
                    | connected => "connected"
                    | disconnected => "disconnected"
                    | loading => "loading"
                    end in
        let label := match state with
                     | connected => "Connected"
                     | disconnected => "Disconnected"
                     | loading => "Connecting..."
                     end in
        set_indicator (Some ("status-dot " +:+ name, label)) w
    end).

(** [socket = new WebSocket(WS_URL)]; the four listeners below are the ones
    it gets. *)
Definition connect : M unit :=
  setStatus loading ;;
  update (set_socket (Some {| url := WS_URL; readyState := CONNECTING |})) ;;
  emit (Construct WS_URL).

Definition scheduleReconnect : M unit :=
  t ← read reconnectTimer;
  clearTimeout t ;;
  i ← setTimeout RECONNECT_DELAY;
  update (set_reconnectTimer (Some i)).

(** The function given to [setTimeout]. *)
Definition reconnect : M unit :=
  console Log [AStr "[WS] Attempting reconnect..."] ;;
  connect.

Definition open_listener : M unit :=
  console Log [AStr "[WS] Connected"] ;;
  setStatus connected ;;
  t ← read reconnectTimer;
  clearTimeout t.

Definition close_listener (code : Z) (reason : string) : M unit :=
  console Warn [AStr "[WS] Closed"; AInt code; AStr reason] ;;
  setStatus disconnected ;;
  update (set_socket None) ;;
  scheduleReconnect.

Definition error_listener : M unit :=
  console Error [AStr "[WS] Error"; AEvent].

(** [cb(payload)] *)
Definition call (cb : handler) (payload : value) : M unit :=
  emit (Invoke cb payload) ;;
  seen ← read trace;
  match callback cb payload seen with
  | Returns => mret tt
  | Throws e => throw e
  end.

(** [(handlers[key] || []).forEach(f)] *)
Definition each_handler (key : string) (f : handler -> M unit) : M unit :=
  s ← handlers_get key;
  match s with
  | Undefined => forEach [] f
  | Array cbs => forEach cbs f
  | Inherited _ =>
      throw (TypeError "(handlers[type] || []).forEach is not a function")
  end.

Definition message_listener (data : string) : M unit :=
  match JSON.parse data with
  | None => console Warn [AStr "[WS] Non-JSON message:"; AStr data]
  | Some payload =>
      type ← get_type payload;
      if falsy type then
        console Warn [AStr "[WS] No type in message:"; AVal payload]
      else
        key ← to_key type;
        each_handler key (fun cb =>
          try_catch (call cb payload) (fun e =>
            text ← to_key type;
            console Error
              [AStr ("[WS] Handler error for '" +:+ text +:+ "':");
               AExn e])) ;;
        each_handler "*" (fun cb =>
          try_catch (call cb payload) (fun e =>
            console Error [AStr "[WS] Catch-all handler error:"; AExn e]))
  end.

(** [socket.send(data)] of the host: an error while connecting, a frame when
    open, nothing once closing or closed. *)
Definition socket_send (ws : WebSocket) (data : string) : M unit :=
  if (readyState ws =? CONNECTING)%Z then throw InvalidStateError
  else if (readyState ws =? OPEN)%Z then emit (Transmit data)
  else mret tt.

Definition send (payload : value) : M bool :=
  s ← read socket;
  match s with
  | Some ws =>
      if negb (readyState ws =? OPEN)%Z then
        console Warn [AStr "[WS] Cannot send — socket not open:"; AVal payload] ;;
        mret false
      else
        socket_send ws (JSON_stringify payload) ;;
        mret true
  | None =>
      console Warn [AStr "[WS] Cannot send — socket not open:"; AVal payload] ;;
      mret false
  end.

Definition on (type : string) (cb : handler) : M unit :=
  s ← handlers_get type;
  match s with Undefined => handlers_set type [] | _ => mret tt end ;;
  s ← handlers_get type;
  match s with
  | Array cbs => handlers_set type (cbs ++ [cb])
  | _ => throw (TypeError "handlers[type].push is not a function")
  end.

Definition off (type : string) (cb : handler) : M unit :=
  s ← handlers_get type;
  match s with
  | Undefined => mret tt
  | Array cbs => handlers_set type (filter (fun c => c ≠ cb) cbs)
  | Inherited _ => throw (TypeError "handlers[type].filter is not a function")
  end.

(** [socket && socket.readyState === WebSocket.OPEN]: the left operand when
    it is falsy, the comparison otherwise. *)
Definition isConnected : M value :=
  s ← read socket;
  match s with
  | None => mret VNull
  | Some ws => mret (VBool (readyState ws =? OPEN)%Z)
  end.

(** ** The host's events *)

(** What can happen to the module once it is loaded: the events of its
    socket, its timer firing, a change of [socket.readyState] by the host,
    and calls of its four exported functions. *)
Inductive event :=
| SocketOpen
| SocketClose (code : Z) (reason : string)
| SocketError
| SocketMessage (data : string)
| SocketState (rs : Z)
| TimerFired (id : nat)
| ApiSend (payload : value)
| ApiOn (type : string) (cb : handler)
| ApiOff (type : string) (cb : handler)
| ApiIsConnected.

Definition host_readyState (rs : Z) : M unit :=
  update (fun w =>
    match socket w with
    | Some ws => set_socket (Some {| url := url ws; readyState := rs |}) w
    | None => w
    end).

Definition react (e : event) : M unit :=
  match e with
  | SocketOpen => host_readyState OPEN ;; open_listener
  | SocketClose code reason => host_readyState CLOSED ;; close_listener code reason
  | SocketError => error_listener
  | SocketMessage data => message_listener data
  | SocketState rs => host_readyState rs
  | TimerFired id =>
      pending ← read timers;
      if bool_decide (id ∈ pending.*1) then
        clearTimeout (Some id) ;; reconnect
      else mret tt
  | ApiSend payload => send payload ;; mret tt
  | ApiOn type cb => on type cb
  | ApiOff type cb => off type cb
  | ApiIsConnected => isConnected ;; mret tt
  end.

(** The world after a statement, whether it completed or threw. *)
Definition after {A} (m : M A) (w : World) : World := (m w).1.

Definition step (e : event) (w : World) : World := after (react e) w.

(** Before the script runs, and once it has run ([connect()] at load). *)
Definition blank (dom : option (string * string)) : World :=
  {| socket := None; reconnectTimer := None; handlers := ∅;
     timers := []; next_timer := 1; indicator := dom; trace := [] |}.

Definition boot (dom : option (string * string)) : World :=
  after connect (blank dom).

Inductive reachable : World -> Prop :=
| reachable_boot dom : reachable (boot dom)
| reachable_step e w : reachable w -> reachable (step e w).

(** ** Reading worlds and traces *)

(** The condition [send] and [isConnected] test. *)
Definition is_open (w : World) : bool :=
  match socket w with
  | Some ws => (readyState ws =? OPEN)%Z
  | None => false
  end.

(** The array stored under [key], none being the empty one. *)
Definition subscribed (key : string) (w : World) : list handler :=
  default [] (handlers w !! key).

(** The [type] of a payload other than [null]; [None] is [undefined]. *)
Definition type_of (payload : value) : option value :=
  match payload with
  | VObj members => member "type" members
  | _ => None
  end.

(** The two labels the message listener logs a subscriber's exception
    under, the first for a type whose text is [key]. *)
Definition handler_error (key : string) : string :=
  "[WS] Handler error for '" +:+ key +:+ "':".
Definition catch_all_error : string := "[WS] Catch-all handler error:".

(** [handlers[key]] is a member inherited from [Object.prototype]: the
    module stored nothing under a name the prototype has. *)
Definition inherited (key : string) (w : World) : Prop :=
  key ∈ Object_prototype ∧ handlers w !! key = None.

(** What the message listener does to the outside for one frame. *)
Definition dispatched (data : string) (w : World) : list effect :=
  drop (length (trace w)) (trace (after (message_listener data) w)).

(** The world after the given subscriptions, made in order. *)
Definition subscribe_all (subs : list (string * handler)) (w : World) : World :=
  foldl (fun w s => after (on s.1 s.2) w) w subs.

(** The timers the host holds for the module: none, or the one whose id is
    in [reconnectTimer], set for [RECONNECT_DELAY]; ids not yet handed out
    are not pending. *)
Definition one_pending (w : World) : Prop :=
  (timers w = []
   ∨ ∃ i, timers w = [(i, RECONNECT_DELAY)] ∧ reconnectTimer w = Some i)
  ∧ Forall (fun t => t.1 < next_timer w) (timers w).

(** The calls of subscribers in a trace, in order. *)
Fixpoint invocations (tr : list effect) : list (handler * value) :=
  match tr with
  | [] => []
  | Invoke cb payload :: rest => (cb, payload) :: invocations rest
  | _ :: rest => invocations rest
  end.

(** The trace after one [forEach] over [cbs], every call wrapped in a [try]
    whose [catch] logs [msg] and the exception. *)
Fixpoint pass (msg : string) (payload : value) (cbs : list handler)
    (seen : list effect) : list effect :=
  match cbs with
  | [] => seen
  | cb :: rest =>
      let seen' := seen ++ [Invoke cb payload] in
      match callback cb payload seen' with
      | Returns => pass msg payload rest seen'
      | Throws e =>
          pass msg payload rest (seen' ++ [Console Error [AStr msg; AExn e]])
      end
  end.

(** In what the listener added after [seen], every call that threw is
    followed at once by the log of its exception. *)
Definition caught_and_logged (seen added : list effect) : Prop :=
  ∀ pre cb p e post,
    added = pre ++ Invoke cb p :: post →
    callback cb p (seen ++ pre ++ [Invoke cb p]) = Throws e →
    ∃ msg post', post = Console Error [AStr msg; AExn e] :: post'.

(** ** The modules around it *)

(** *** table.js: the subscriber of the result frames *)

(** [v.k] for a value other than [null] and a name no prototype has;
    [None] is [undefined]. *)
Definition prop (k : string) (v : value) : option value :=
  match v with
  | VObj members => member k members
  | _ => None
  end.

(** [payload.status]: reading a property of [null] throws. *)
Definition get_status (payload : value) : M (option value) :=
  match payload with
  | VNull =>
      throw (TypeError "Cannot read properties of null (reading 'status')")
  | _ => mret (prop "status" payload)
  end.

(** The [length] of a string, in UTF-16 code units: one per code point and
    one more for each code point written on four bytes. *)
Definition utf16_length (s : string) : nat :=
  let bytes := map N_of_ascii (list_ascii_of_string s) in
  length (filter (fun b => (b < 128 ∨ 192 ≤ b)%N) bytes)
  + length (filter (fun b => (240 ≤ b)%N) bytes).

(** The text of [records.length] in a template literal, for [records] other
    than [null]; [None] when the member [length] of an object cannot be
    converted to a string. *)
Definition length_text (records : value) : option string :=
  match records with
  | VArr items => Some (pretty (length items))
  | VStr s => Some (pretty (utf16_length s))
  | VObj members =>
      match member "length" members with
      | Some v => to_string v
      | None => Some "undefined"
      end
  | _ => Some "undefined"
  end.

Definition Table_renderRecords (records : value) : M unit :=
  match records with
  | VNull =>
      throw (TypeError "Cannot read properties of null (reading 'length')")
  | _ =>
      match length_text records with
      | Some text =>
          console Log
            [AStr ("[Table] renderRecords — " +:+ text
                   +:+ " records (not yet implemented)")]
      | None => throw (TypeError "Cannot convert object to primitive value")
      end
  end.

(** [x?.records] *)
Definition optional_records (x : option value) : option value :=
  match x with
  | None | Some VNull => None
  | Some data => prop "records" data
  end.

(** [x ?? []] *)
Definition or_empty_array (x : option value) : value :=
  match x with
  | None | Some VNull => VArr []
  | Some v => v
  end.

Definition is_ok (status : option value) : bool :=
  match status with
  | Some (VStr s) => String.eqb s "ok"
  | _ => false
  end.

Definition Table_onFilterResult (payload : value) : M unit :=
  status ← get_status payload;
  if negb (is_ok status) then mret tt
  else
    Table_renderRecords
      (or_empty_array (optional_records (prop "data" payload))).

(** *** upload.js: the drop overlay *)

(** [dragCounter], whether the overlay has the class [visible], and the
    files handed to [uploadFile], oldest first. *)
Record Drag := {
  dragCounter : Z;
  visible : bool;
  uploading : list nat
}.

(** A drop carries the files of [e.dataTransfer.files], in order; [None]
    when the event has no [dataTransfer] or that has no [files]. *)
Inductive drag_event :=
| DragEnter
| DragLeave
| DragOver
| DragDrop (files : option (list nat)).

(** [e.dataTransfer?.files?.[0]] *)
Definition first_file (files : option (list nat)) : option nat :=
  match files with
  | Some (file :: _) => Some file
  | _ => None
  end.

(** [n++] on a number holding an integer from 0 to [2^53]: exact below
    [2^53], where [n + 1] rounds back to [n]. *)
Definition plus_plus (n : Z) : Z :=
  if (n =? 2 ^ 53)%Z then n else (n + 1)%Z.

Definition Upload_drag (e : drag_event) (s : Drag) : Drag :=
  match e with
  | DragEnter =>
      let n := plus_plus (dragCounter s) in
      {| dragCounter := n;
         visible := if (n =? 1)%Z then true else visible s;
         uploading := uploading s |}
  | DragLeave =>
      let n := (dragCounter s - 1)%Z in
      if (n <=? 0)%Z
      then {| dragCounter := 0; visible := false; uploading := uploading s |}
      else {| dragCounter := n; visible := visible s;
              uploading := uploading s |}
  | DragOver => s
  | DragDrop files =>
      {| dragCounter := 0; visible := false;
         uploading := match first_file files with
                      | Some file => uploading s ++ [file]
                      | None => uploading s
                      end |}
  end.

(** [initDragDrop] found the overlay, without the class [visible]. *)
Definition Upload_initDragDrop : Drag :=
  {| dragCounter := 0; visible := false; uploading := [] |}.

(** The files an event brings, all of them. *)
Definition dropped (e : drag_event) : list nat :=
  match e with
  | DragDrop (Some files) => files
  | _ => []
  end.

(** The first of them. *)
Definition dropped_first (e : drag_event) : list nat := take 1 (dropped e).

(** *** views.js and map.js: the two panels and the map *)

(** What [Map] does to the outside while its functions run.  [Later ms] is
    the [setTimeout] of a call of [invalidateSize]; the call the host makes
    when that timer fires is not one of these functions' and is not
    recorded. *)
Inductive page_effect :=
| L_map
| L_tileLayer
| L_marker
| InvalidateSize
| Later (ms : Z)
| PageLog (text : string).

(** The state of [Views] and of [Map], and the page they act on: for each
    [.view-panel] and each [.view-btn] its [data-view] ([None] when it has
    none) and whether it has the class [active]; whether an element with id
    [map] exists; what was done through Leaflet, timers and the console. *)
Record Page := {
  current : option string;
  panels : list (option string * bool);
  buttons : list (option string * bool);
  leaflet : bool;
  initialized : bool;
  map_container : bool;
  did : list page_effect
}.

Inductive page_result :=
| Done
| Failed (error : string).

Definition page_did (es : list page_effect) (p : Page) : Page :=
  {| current := current p; panels := panels p; buttons := buttons p;
     leaflet := leaflet p; initialized := initialized p;
     map_container := map_container p; did := did p ++ es |}.

(** [Map.init]: Leaflet's [L.map] throws when the container is missing,
    after [initialized] has been set. *)
Definition Map_init (p : Page) : Page * page_result :=
  if initialized p then (p, Done)
  else if map_container p then
    ({| current := current p; panels := panels p; buttons := buttons p;
        leaflet := true; initialized := true;
        map_container := map_container p;
        did := did p ++ [L_map; L_tileLayer; L_marker; Later 80;
                         PageLog "[Map] Leaflet initialised."] |}, Done)
  else
    ({| current := current p; panels := panels p; buttons := buttons p;
        leaflet := leaflet p; initialized := true;
        map_container := map_container p;
        did := did p ++ [L_map] |}, Failed "Map container not found.")
.

Definition Map_onPanelVisible (p : Page) : Page * page_result :=
  if negb (initialized p) then Map_init p
  else if leaflet p then (page_did [InvalidateSize] p, Done)
  else (p, Done).

(** [els.forEach(el => el.classList.toggle("active", el.dataset.view === view))] *)
Definition activate (view : option string) (els : list (option string * bool))
    : list (option string * bool) :=
  map (fun el => (el.1, bool_decide (el.1 = view))) els.

Definition Views_switchTo (view : option string) (p : Page)
    : Page * page_result :=
  if bool_decide (view = current p) then (p, Done)
  else
    let p' :=
      {| current := view; panels := activate view (panels p);
         buttons := activate view (buttons p);
         leaflet := leaflet p; initialized := initialized p;
         map_container := map_container p; did := did p |} in
    if bool_decide (view = Some "map") then Map_onPanelVisible p'
    else (p', Done).

Definition Views_init (p : Page) : Page * page_result :=
  Map_init
    {| current := current p; panels := activate (current p) (panels p);
       buttons := activate (current p) (buttons p);
       leaflet := leaflet p; initialized := initialized p;
       map_container := map_container p; did := did p |}.

(** The page when the scripts are loaded. *)
Definition page_loaded (panels buttons : list (option string * bool))
    (container : bool) : Page :=
  {| current := Some "map"; panels := panels; buttons := buttons;
     leaflet := false; initialized := false; map_container := container;
     did := [] |}.

Definition is_L_map (e : page_effect) : bool :=
  match e with
  | L_map => true
  | _ => false
  end.

(** Whether a click on a button of [view] brings the map back: it asks for
    the map while another view is shown. *)
Definition returns_to_map (cur view : option string) : bool :=
  bool_decide (view = Some "map") && negb (bool_decide (view = cur)).

(** The number of clicks that bring the map back, [cur] being the view shown
    before the first. *)
Fixpoint returns (cur : option string) (clicks : list (option string)) : nat :=
  match clicks with
  | [] => 0
  | view :: rest =>
      (if returns_to_map cur view then 1 else 0) + returns view rest
  end.

(** The map part of the page once [Map.init] has been called and the map
    has been brought back [n] times. *)
Definition map_settled (container : bool) (n : nat) (p : Page) : Prop :=
  initialized p = true ∧ leaflet p = container
  ∧ map_container p = container
  ∧ if container
    then did p = [L_map; L_tileLayer; L_marker; Later 80;
                  PageLog "[Map] Leaflet initialised."]
                 ++ replicate n InvalidateSize
    else did p = [L_map].

(** [Views.init()] and then the clicks on view buttons, oldest first. *)
Definition Views_session (clicks : list (option string)) (p : Page) : Page :=
  foldl (fun p view => (Views_switchTo view p).1) (Views_init p).1 clicks.

(** *** filters.js: the sidebar *)

(** [toUpperCase] of the host. *)
Variable toUpperCase : string -> string.

(** The length in bytes of the white space or line terminator character the
    bytes start with, 0 when they start with none: U+0009 to U+000D, U+0020,
    U+00A0, U+1680, U+2000 to U+200A, U+2028, U+2029, U+202F, U+205F, U+3000,
    U+FEFF. *)
Definition white3 (a b c : N) : bool :=
  ((a =? 225) && (b =? 154) && (c =? 128)
   || (a =? 226) && (b =? 128)
      && (((128 <=? c) && (c <=? 138)) || (c =? 168) || (c =? 169)
          || (c =? 175))
   || (a =? 226) && (b =? 129) && (c =? 159)
   || (a =? 227) && (b =? 128) && (c =? 128)
   || (a =? 239) && (b =? 187) && (c =? 191))%N.

Definition white (bytes : list ascii) : nat :=
  match map N_of_ascii bytes with
  | a :: rest =>
      if (((9 <=? a) && (a <=? 13)) || (a =? 32))%N then 1
      else match rest with
           | b :: rest' =>
               if ((a =? 194) && (b =? 160))%N then 2
               else match rest' with
                    | c :: _ => if white3 a b c then 3 else 0
                    | [] => 0
                    end
           | [] => 0
           end
  | [] => 0
  end.

(** The same for the character the bytes end with, read from the last
    byte backwards. *)
Definition white_back (reversed : list ascii) : nat :=
  match map N_of_ascii reversed with
  | c :: rest =>
      if (((9 <=? c) && (c <=? 13)) || (c =? 32))%N then 1
      else match rest with
           | b :: rest' =>
               if ((b =? 194) && (c =? 160))%N then 2
               else match rest' with
                    | a :: _ => if white3 a b c then 3 else 0
                    | [] => 0
                    end
           | [] => 0
           end
  | [] => 0
  end.

Fixpoint strip (head : list ascii -> nat) (fuel : nat) (s : list ascii)
    : list ascii :=
  match fuel with
  | O => s
  | S fuel =>
      match head s with
      | O => s
      | n => strip head fuel (drop n s)
      end
  end.

(** [parseFloat(s)]: the number written by the longest prefix of [s],
    leading white space skipped, that is a decimal literal; [None] is [NaN]
    and an infinite result is kept as [1e400], a decimal beyond the range of
    binary64. *)
Definition parseFloat (s : string) : option number :=
  let bytes := list_ascii_of_string s in
  let s0 := strip white (length bytes) bytes in
  let '(neg, s1) :=
    match s0 with
    | "-"%char :: r => (true, r)
    | "+"%char :: r => (false, r)
    | _ => (false, s0)
    end in
  if bool_decide (list_ascii_of_string "Infinity" `prefix_of` s1)
  then Some (Num neg 1 400)
  else
    let '(int, ilen, s2) := JSON.digits 0 0 s1 in
    let '(mant, flen, s3) :=
      match s2 with
      | "."%char :: r =>
          let '(m, len, r') := JSON.digits int 0 r in (m, Some len, r')
      | _ => (int, None, s2)
      end in
    let written :=
      match ilen, flen with
      | O, None => false
      | O, Some O => false
      | _, _ => true
      end in
    if written then
      let exp :=
        match s3 with
        | "e"%char :: r | "E"%char :: r =>
            let '(sgn, r') :=
              match r with
              | "+"%char :: r' => (1%Z, r')
              | "-"%char :: r' => ((-1)%Z, r')
              | _ => (1%Z, r)
              end in
            let '(e, len, _) := JSON.digits 0 0 r' in
            match len with
            | O => 0%Z
            | S _ => (sgn * Z.of_N e)%Z
            end
        | _ => 0%Z
        end in
      Some (Num neg mant (exp - Z.of_nat (default 0 flen)))
    else None.

(** [s.trim()] *)
Definition trim (s : string) : string :=
  let bytes := list_ascii_of_string s in
  let left := strip white (length bytes) bytes in
  string_of_list_ascii
    (rev (strip white_back (length left) (rev left))).

(** [s.split(",")] *)
Fixpoint split_commas (s : list ascii) : list (list ascii) :=
  match s with
  | [] => [[]]
  | c :: rest =>
      if Ascii.eqb c "," then [] :: split_commas rest
      else match split_commas rest with
           | piece :: pieces => (c :: piece) :: pieces
           | [] => [[c]]
           end
  end.

(** [s.replace(/,/g, "")] *)
Definition remove_commas (s : string) : string :=
  string_of_list_ascii
    (filter (fun c => c ≠ ","%char) (list_ascii_of_string s)).

(** An array that is [null] when it would be empty:
    [v.length ? v : null]. *)
Definition or_null {A} (v : list A) : option (list A) :=
  match v with
  | [] => None
  | _ => Some v
  end.

Definition Filters_parseSquawks (raw : string) : option (list string) :=
  if String.eqb raw "" then None
  else
    or_null
      (filter (fun piece => piece ≠ "")
         (map (fun piece => trim (string_of_list_ascii piece))
            (split_commas (list_ascii_of_string raw)))).

(** The part of the page the sidebar reads and writes: the value of the
    elements that have one, by id; for each tag wrapper, by id, whether it
    has an [input] child and the [data-value] of its [.filter-tag]
    children, which stand before that input, as [addTag] puts them;
    the check boxes with a [data-filter-group], in document order; the text
    and the [display] of [#filter-active-count] when it exists. *)
Record TagBox := { has_input : bool; tag_values : list string }.

Record CheckBox := { box_group : string; box_value : string; box_checked : bool }.

Record Sidebar := {
  inputs : gmap string string;
  tagboxes : gmap string TagBox;
  checkboxes : list CheckBox;
  pill : option (string * string)
}.

Definition Filters_val (dom : Sidebar) (id : string) : string :=
  match inputs dom !! id with
  | Some v => trim v
  | None => ""
  end.

Definition Filters_num (dom : Sidebar) (id : string) : option number :=
  match inputs dom !! id with
  | Some v => parseFloat v
  | None => None
  end.

Definition Filters_getTagValues (dom : Sidebar) (wrapperId : string)
    : option (list string) :=
  match tagboxes dom !! wrapperId with
  | Some box => or_null (tag_values box)
  | None => None
  end.

Definition Filters_getChecked (dom : Sidebar) (group : string)
    : option (list string) :=
  or_null
    (map box_value
       (filter (fun b => box_group b = group ∧ box_checked b = true)
          (checkboxes dom))).

(** [x || null] for a string. *)
Definition nonempty (x : string) : option string :=
  if String.eqb x "" then None else Some x.

(** What [collect] returns; [None] is [null]. *)
Record Filter := {
  time_start : option string;
  time_end : option string;
  altitude_min : option number;
  altitude_max : option number;
  callsigns : option (list string);
  categories : option (list string);
  squawks : option (list string)
}.

Definition Filters_collect (dom : Sidebar) : Filter :=
  {| time_start := nonempty (Filters_val dom "f-time-start");
     time_end := nonempty (Filters_val dom "f-time-end");
     altitude_min := Filters_num dom "f-alt-min";
     altitude_max := Filters_num dom "f-alt-max";
     callsigns := Filters_getTagValues dom "f-callsign-tags";
     categories := Filters_getChecked dom "f-categories";
     squawks := Filters_parseSquawks (Filters_val dom "f-squawk") |}.

Definition strings (v : list string) : value := VArr (map VStr v).

(** [Object.entries(raw)], a [null] value being [None]. *)
Definition entries (raw : Filter) : list (string * option value) :=
  [("time_start", VStr <$> time_start raw);
   ("time_end", VStr <$> time_end raw);
   ("altitude_min", VNum <$> altitude_min raw);
   ("altitude_max", VNum <$> altitude_max raw);
   ("callsigns", strings <$> callsigns raw);
   ("categories", strings <$> categories raw);
   ("squawks", strings <$> squawks raw)].

(** The payload [applyFilters] builds: the action, then the entries that
    are not [null], in order. *)
Definition Filters_payload (raw : Filter) : value :=
  VObj (("action", VStr "apply_filters")
          :: omap (fun e => (fun v => (e.1, v)) <$> e.2) (entries raw)).

(** The entries [applyFilters] copies into the payload. *)
Definition sent_entries (raw : Filter) : list (string * value) :=
  omap (fun e => (fun v => (e.1, v)) <$> e.2) (entries raw).

Definition Filters_applyFilters (dom : Sidebar) : M unit :=
  sent ← send (Filters_payload (Filters_collect dom));
  if negb sent then console Warn [AStr "[Filters] WS not ready."]
  else mret tt.

(** The number [updateBadge] shows. *)
Definition Filters_count (f : Filter) : nat :=
  (if nonempty (default "" (time_start f)) is Some _ then 1 else 0)
  + (if nonempty (default "" (time_end f)) is Some _ then 1 else 0)
  + (if altitude_min f is Some _ then 1 else 0)
  + (if altitude_max f is Some _ then 1 else 0)
  + (if callsigns f is Some (_ :: _) then 1 else 0)
  + (if categories f is Some (_ :: _) then 1 else 0)
  + (if squawks f is Some (_ :: _) then 1 else 0).

Definition set_pill (x : option (string * string)) (dom : Sidebar) : Sidebar :=
  {| inputs := inputs dom; tagboxes := tagboxes dom;
     checkboxes := checkboxes dom; pill := x |}.

Definition Filters_updateBadge (dom : Sidebar) : Sidebar :=
  let n := Filters_count (Filters_collect dom) in
  match pill dom with
  | Some _ =>
      set_pill (Some (pretty n, if (0 <? n)%nat then "inline-flex" else "none"))
        dom
  | None => dom
  end.

Definition set_tags (wrapperId : string) (tags : list string) (dom : Sidebar)
    : Sidebar :=
  {| inputs := inputs dom;
     tagboxes := alter (fun box => {| has_input := has_input box;
                                      tag_values := tags |})
                   wrapperId (tagboxes dom);
     checkboxes := checkboxes dom; pill := pill dom |}.

(** Whether the HTML parser reads [value] as text only: it holds no [<],
    the character every tag, comment and declaration starts with. *)
Definition plain_text (value : string) : bool :=
  negb (bool_decide ("<"%char ∈ list_ascii_of_string value)).

(** [addTag] writes [value] into the [innerHTML] of the new tag.  A value
    that is plain text gives one tag, with the cross after its text, put
    before the input.  A value holding a [<] may be read as markup and give
    a tag with elements of its own, which may themselves be tags, inputs or
    crosses, or may swallow the cross: this description of the page does
    not follow them, and the result is [None]. *)
Definition Filters_addTag (wrapperId value : string) (dom : Sidebar)
    : option Sidebar :=
  match tagboxes dom !! wrapperId with
  | Some box =>
      if has_input box then
        if bool_decide (value ∈ tag_values box) then Some dom
        else if plain_text value
             then Some (set_tags wrapperId (tag_values box ++ [value]) dom)
             else None
      else Some dom
  | None => Some dom
  end.

Definition Filters_clearTags (wrapperId : string) (dom : Sidebar) : Sidebar :=
  set_tags wrapperId [] dom.

Definition set_input (id value : string) (dom : Sidebar) : Sidebar :=
  {| inputs := alter (fun _ => value) id (inputs dom);
     tagboxes := tagboxes dom; checkboxes := checkboxes dom;
     pill := pill dom |}.

(** The [keydown] listener [initTagInput] puts on the input, both elements
    existing; [None] where [addTag] gives none. *)
Definition Filters_keydown (wrapperId inputId key : string) (dom : Sidebar)
    : option Sidebar :=
  let value := default "" (inputs dom !! inputId) in
  let entered :=
    if String.eqb key "Enter" || String.eqb key "," then
      let v := remove_commas (toUpperCase (trim value)) in
      match (if String.eqb v "" then Some dom
             else Filters_addTag wrapperId v dom) with
      | Some added => Some (Filters_updateBadge (set_input inputId "" added))
      | None => None
      end
    else Some dom in
  match entered with
  | Some dom1 =>
      let value1 := default "" (inputs dom1 !! inputId) in
      if String.eqb key "Backspace" && String.eqb value1 "" then
        match tag_values <$> tagboxes dom1 !! wrapperId with
        | Some ((_ :: _) as tags) =>
            Some (Filters_updateBadge
                    (set_tags wrapperId (removelast tags) dom1))
        | _ => Some dom1
        end
      else Some dom1
  | None => None
  end.

(** The [click] listener of the cross of the tag at position [i]. *)
Definition Filters_removeTag (wrapperId : string) (i : nat) (dom : Sidebar)
    : Sidebar :=
  match tag_values <$> tagboxes dom !! wrapperId with
  | Some tags => Filters_updateBadge (set_tags wrapperId (delete i tags) dom)
  | None => Filters_updateBadge dom
  end.

Definition Filters_resetFilters (dom : Sidebar) : Sidebar :=
  let dom1 :=
    foldl (fun d id => set_input id "" d) dom
      ["f-time-start"; "f-time-end"; "f-alt-min"; "f-alt-max"; "f-squawk"] in
  let dom2 :=
    {| inputs := inputs dom1; tagboxes := tagboxes dom1;
       checkboxes :=
         map (fun b =>
                if String.eqb (box_group b) "f-categories"
                then {| box_group := box_group b; box_value := box_value b;
                        box_checked := true |}
                else b)
             (checkboxes dom1);
       pill := pill dom1 |} in
  Filters_updateBadge (Filters_clearTags "f-callsign-tags" dom2).

(** What happens to the tags of the call sign box: a key goes down in its
    input, which holds [value] then, the listener being there when
    [initTagInput] found both elements; the cross of the tag at position
    [i] is clicked; [resetFilters] runs. *)
Inductive tag_event :=
| KeyDown (key value : string)
| ClickCross (i : nat)
| Reset.

Definition Filters_tag_event (e : tag_event) (dom : Sidebar)
    : option Sidebar :=
  match e with
  | KeyDown key value =>
      match tagboxes dom !! "f-callsign-tags",
            inputs dom !! "f-callsign-input" with
      | Some _, Some _ =>
          Filters_keydown "f-callsign-tags" "f-callsign-input" key
            (set_input "f-callsign-input" value dom)
      | _, _ => Some dom
      end
  | ClickCross i => Some (Filters_removeTag "f-callsign-tags" i dom)
  | Reset => Some (Filters_resetFilters dom)
  end.

(** The sidebar after a sequence of events on the call sign box, oldest
    first; [None] from the first event that gives none. *)
Definition Filters_tag_events (es : list tag_event) (dom : Sidebar)
    : option Sidebar :=
  foldl (fun d e => match d with
                    | Some d => Filters_tag_event e d
                    | None => None
                    end) (Some dom) es.

(** The text a key stroke with [value] in the input hands to [addTag], if
    the key is one that adds. *)
Definition entered (value : string) : string :=
  remove_commas (toUpperCase (trim value)).


(** Stands in for [toUpperCase]: exact on ASCII. *)
Definition upper_ascii (s : string) : string :=
  string_of_list_ascii
    (map (fun c => let n := N_of_ascii c in
                   if ((97 <=? n) && (n <=? 122))%N then ascii_of_N (n - 32)
                   else c)
       (list_ascii_of_string s)).

(** The [data-value]s of the tags in the call sign box. *)
Definition callsign_tags (dom : Sidebar) : list string :=
  default [] (tag_values <$> tagboxes dom !! "f-callsign-tags").


(** The check boxes of the category group. *)
Definition category_boxes (dom : Sidebar) : list CheckBox :=
  filter (fun b => box_group b = "f-categories") (checkboxes dom).

(** A sidebar with the call sign box and its input, both empty, and the
    badge. *)
Definition empty_sidebar : Sidebar :=
  {| inputs := {["f-callsign-input" := ""]};
     tagboxes := {["f-callsign-tags" := {| has_input := true;
                                           tag_values := [] |}]};
     checkboxes := []; pill := Some ("0", "none") |}.

(** The world after a sequence of events, oldest first. *)
Definition steps (es : list event) (w : World) : World :=
  foldl (fun w e => step e w) w es.

(** The two calls that change the registry. *)
Definition is_subscription (e : event) : bool :=
  match e with
  | ApiOn _ _ | ApiOff _ _ => true
  | _ => false
  end.

Definition is_close (e : event) : bool :=
  match e with
  | SocketClose _ _ => true
  | _ => false
  end.

Definition is_timer (e : event) : bool :=
  match e with
  | TimerFired _ => true
  | _ => false
  end.

(** The class and the label [setStatus] gives the indicator. *)
Definition shown (s : status) : string * string :=
  match s with
  | connected => ("status-dot connected", "Connected")
  | disconnected => ("status-dot disconnected", "Disconnected")
  | loading => ("status-dot loading", "Connecting...")
  end.

(** ** Worlds and statements: basic facts *)

#[global] Instance inherited_dec key w : Decision (inherited key w).
Proof. unfold inherited. apply _. Defined.

Lemma set_trace_trace w : set_trace (trace w) w = w.
Proof. by destruct w. Qed.

Lemma set_trace_twice x y w : set_trace x (set_trace y w) = set_trace x w.
Proof. done. Qed.

Lemma pass_extends msg payload cbs seen :
  ∃ added, pass msg payload cbs seen = seen ++ added.
Proof.
  revert seen. induction cbs as [|cb rest IH]; intros seen; simpl.
  - exists []. by rewrite app_nil_r.
  - destruct (callback cb payload _) as [|e].
    + destruct (IH (seen ++ [Invoke cb payload])) as [added ->].
      eexists. by rewrite <- app_assoc.
    + destruct (IH ((seen ++ [Invoke cb payload])
                      ++ [Console Error [AStr msg; AExn e]])) as [added ->].
      eexists. by rewrite <- !app_assoc.
Qed.

Lemma invocations_app tr1 tr2 :
  invocations (tr1 ++ tr2) = invocations tr1 ++ invocations tr2.
Proof.
  induction tr1 as [|[] tr1 IH]; simpl; try done. by rewrite IH.
Qed.

Lemma invocations_pass msg payload cbs seen :
  invocations (pass msg payload cbs seen)
  = invocations seen ++ map (fun cb => (cb, payload)) cbs.
Proof.
  revert seen. induction cbs as [|cb rest IH]; intros seen; simpl.
  - by rewrite app_nil_r.
  - destruct (callback cb payload _); rewrite IH, !invocations_app; simpl;
      by rewrite ?app_nil_r, <- app_assoc.
Qed.

(** One guarded [forEach] is one [pass]; it never throws. *)
Lemma forEach_guarded msg payload cbs w :
  forEach cbs (fun cb =>
    try_catch (call cb payload) (fun e =>
      console Error [AStr msg; AExn e])) w
  = (set_trace (pass msg payload cbs (trace w)) w, Normal tt).
Proof.
  revert w. induction cbs as [|cb rest IH]; intros w; simpl.
  - by rewrite set_trace_trace.
  - unfold mbind, M_bind, try_catch, call, emit, console, emit, update, read,
      mbind, M_bind, mret, M_ret, throw; simpl.
    destruct (callback cb payload _) as [|e]; simpl; by rewrite IH.
Qed.

Ltac run :=
  repeat (unfold mbind, M_bind, mret, M_ret, throw, read, update, emit,
          console, try_catch, after; simpl).

Lemma not_inherited key w : key ∉ Object_prototype → ¬ inherited key w.
Proof. by intros ? [? _]. Qed.

Lemma each_handler_own key f w :
  ¬ inherited key w →
  each_handler key f w = forEach (subscribed key w) f w.
Proof.
  intros Hkey. unfold each_handler, handlers_get, subscribed. run.
  destruct (handlers w !! key) eqn:Hown; simpl; [done|].
  rewrite bool_decide_eq_false_2; [done|]. intros Hin. by apply Hkey.
Qed.

Lemma each_handler_inherited key f w :
  inherited key w →
  each_handler key f w
  = (w, Throw (TypeError "(handlers[type] || []).forEach is not a function")).
Proof.
  intros [Hkey Hnone]. unfold each_handler, handlers_get. run.
  by rewrite Hnone, bool_decide_eq_true_2.
Qed.

Lemma get_type_of payload t w :
  type_of payload = Some t → get_type payload w = (w, Normal (Some t)).
Proof. destruct payload; simpl; try done. by intros ->. Qed.

Lemma get_type_not_null payload w :
  payload ≠ VNull → get_type payload w = (w, Normal (type_of payload)).
Proof. by destruct payload. Qed.

Lemma star_own : "*" ∉ Object_prototype.
Proof. by apply (bool_decide_unpack _). Qed.

(** A frame that is not JSON: one warning, nothing else. *)
Lemma message_not_json data w :
  JSON.parse data = None →
  message_listener data w
  = (set_trace (trace w ++ [Console Warn [AStr "[WS] Non-JSON message:";
                                          AStr data]]) w, Normal tt).
Proof. intros H. unfold message_listener. by rewrite H. Qed.

(** A payload other than [null] whose [type] is missing or falsy: one
    warning, nothing else. *)
Lemma message_no_type data payload w :
  JSON.parse data = Some payload → payload ≠ VNull →
  falsy (type_of payload) = true →
  message_listener data w
  = (set_trace (trace w ++ [Console Warn [AStr "[WS] No type in message:";
                                          AVal payload]]) w, Normal tt).
Proof.
  intros Hparse Hnull Hfalsy. unfold message_listener. rewrite Hparse.
  unfold mbind, M_bind. rewrite (get_type_not_null _ _ Hnull).
  by rewrite Hfalsy.
Qed.

(** A typed frame whose key is not an inherited member: the pass over the
    type's subscribers, then the pass over the wildcard's. *)
Lemma message_dispatch data payload t k w :
  JSON.parse data = Some payload → type_of payload = Some t →
  truthy t = true → to_string t = Some k → ¬ inherited k w →
  message_listener data w
  = (set_trace
       (pass catch_all_error payload (subscribed "*" w)
          (pass (handler_error k) payload (subscribed k w) (trace w))) w,
     Normal tt).
Proof.
  intros Hparse Htype Htruthy Hk Hkey. unfold message_listener.
  rewrite Hparse. unfold mbind at 1, M_bind at 1.
  rewrite (get_type_of _ _ _ Htype). cbn [falsy]. rewrite Htruthy.
  cbn [negb]. unfold to_key. rewrite Hk.
  unfold mbind at 1, M_bind at 1, mret at 1, M_ret at 1.
  unfold mbind at 1, M_bind at 1.
  rewrite (each_handler_own _ _ _ Hkey).
  change (fun e : exception =>
            mret k ≫= (fun text : string =>
              console Error
                [AStr ("[WS] Handler error for '" +:+ text +:+ "':"); AExn e]))
    with (fun e : exception => console Error [AStr (handler_error k); AExn e]).
  rewrite forEach_guarded.
  rewrite (each_handler_own _ _ _ (not_inherited _ _ star_own)), forEach_guarded.
  done.
Qed.

(** A typed frame whose key is an inherited member: the lookup result has
    no [forEach], the call throws, and the wildcard pass is never reached. *)
Lemma message_inherited data payload t k w :
  JSON.parse data = Some payload → type_of payload = Some t →
  truthy t = true → to_string t = Some k → inherited k w →
  message_listener data w
  = (w, Throw (TypeError "(handlers[type] || []).forEach is not a function")).
Proof.
  intros Hparse Htype Htruthy Hk Hkey. unfold message_listener.
  rewrite Hparse. unfold mbind at 1, M_bind at 1.
  rewrite (get_type_of _ _ _ Htype). cbn [falsy]. rewrite Htruthy.
  cbn [negb]. unfold to_key. rewrite Hk.
  unfold mbind at 1, M_bind at 1, mret at 1, M_ret at 1.
  unfold mbind at 1, M_bind at 1.
  by rewrite (each_handler_inherited _ _ _ Hkey).
Qed.

(** A typed frame whose type has no text: the lookup of its key throws,
    and neither pass is reached. *)
Lemma message_unconvertible data payload t w :
  JSON.parse data = Some payload → type_of payload = Some t →
  truthy t = true → to_string t = None →
  message_listener data w
  = (w, Throw (TypeError "Cannot convert object to primitive value")).
Proof.
  intros Hparse Htype Htruthy Hk. unfold message_listener.
  rewrite Hparse. unfold mbind at 1, M_bind at 1.
  rewrite (get_type_of _ _ _ Htype). cbn [falsy]. rewrite Htruthy.
  cbn [negb]. unfold to_key. by rewrite Hk.
Qed.

Lemma message_null data w :
  JSON.parse data = Some VNull →
  message_listener data w
  = (w, Throw (TypeError "Cannot read properties of null (reading 'type')")).
Proof. intros H. unfold message_listener. by rewrite H. Qed.

(** *** Subscribing and unsubscribing *)

Lemma set_handlers_handlers w : set_handlers (handlers w) w = w.
Proof. by destruct w. Qed.

Lemma on_own t h w :
  ¬ inherited t w →
  on t h w
  = (set_handlers (<[t := subscribed t w ++ [h]]> (handlers w)) w, Normal tt).
Proof.
  intros Hkey. unfold on, handlers_get, handlers_set, subscribed. run.
  destruct (handlers w !! t) eqn:Hown; run.
  - by rewrite Hown.
  - rewrite bool_decide_eq_false_2 by (intros Hin; by apply Hkey). run.
    rewrite lookup_insert_eq. run. by rewrite insert_insert_eq.
Qed.

Lemma handlers_get_inherited key w :
  inherited key w → handlers_get key w = (w, Normal (Inherited key)).
Proof.
  intros [Hkey Hnone]. unfold handlers_get, read.
  by rewrite Hnone, bool_decide_eq_true_2.
Qed.

Lemma on_inherited t h w :
  inherited t w →
  on t h w = (w, Throw (TypeError "handlers[type].push is not a function")).
Proof.
  intros Hkey. unfold on, mbind, M_bind.
  rewrite (handlers_get_inherited _ _ Hkey). unfold mret, M_ret.
  by rewrite (handlers_get_inherited _ _ Hkey).
Qed.

Lemma subscribed_on t h w :
  ¬ inherited t w → subscribed t (after (on t h) w) = subscribed t w ++ [h].
Proof.
  intros Hkey. unfold after. rewrite on_own by done.
  unfold subscribed at 1. simpl. by rewrite lookup_insert_eq.
Qed.

Lemma subscribed_on_other t h k w :
  k ≠ t → subscribed k (after (on t h) w) = subscribed k w.
Proof.
  intros Hne. unfold after. destruct (decide (inherited t w)) as [Hin|Hown].
  - by rewrite on_inherited.
  - rewrite on_own by done. unfold subscribed. simpl.
    by rewrite lookup_insert_ne.
Qed.

Lemma off_world t h w :
  after (off t h) w
  = match handlers w !! t with
    | Some cbs => set_handlers (<[t := filter (fun c => c ≠ h) cbs]> (handlers w)) w
    | None => w
    end.
Proof.
  unfold off, handlers_get, handlers_set. run.
  destruct (handlers w !! t); [done|]. by case_bool_decide.
Qed.

Lemma off_returns t h w :
  ¬ inherited t w → (off t h w).2 = Normal tt.
Proof.
  intros Hkey. unfold off, handlers_get, handlers_set. run.
  destruct (handlers w !! t) eqn:Hown; [done|].
  by rewrite bool_decide_eq_false_2 by (intros Hin; by apply Hkey).
Qed.

Lemma subscribed_off t h w :
  subscribed t (after (off t h) w) = filter (fun c => c ≠ h) (subscribed t w).
Proof.
  rewrite off_world. unfold subscribed.
  destruct (handlers w !! t) eqn:Hown; simpl.
  - by rewrite lookup_insert_eq.
  - by rewrite Hown.
Qed.

Lemma subscribed_off_other t h k w :
  k ≠ t → subscribed k (after (off t h) w) = subscribed k w.
Proof.
  intros Hne. rewrite off_world. unfold subscribed.
  destruct (handlers w !! t); simpl; [|done]. by rewrite lookup_insert_ne.
Qed.

(** *** What one frame adds to the trace *)

Lemma dispatched_of tr c data w :
  message_listener data w = (set_trace (trace w ++ tr) w, c) →
  dispatched data w = tr.
Proof.
  intros H. unfold dispatched, after. rewrite H. simpl.
  by rewrite drop_app_length.
Qed.

Lemma dispatched_nothing c data w :
  message_listener data w = (w, c) → dispatched data w = [].
Proof.
  intros H. unfold dispatched, after. rewrite H. simpl.
  by rewrite drop_all.
Qed.

Lemma dispatched_dispatch data payload t k w :
  JSON.parse data = Some payload → type_of payload = Some t →
  truthy t = true → to_string t = Some k → ¬ inherited k w →
  ∃ typed wild,
    pass (handler_error k) payload (subscribed k w) (trace w)
    = trace w ++ typed
    ∧ pass catch_all_error payload (subscribed "*" w) (trace w ++ typed)
      = (trace w ++ typed) ++ wild
    ∧ dispatched data w = typed ++ wild
    ∧ invocations typed = map (fun cb => (cb, payload)) (subscribed k w)
    ∧ invocations wild = map (fun cb => (cb, payload)) (subscribed "*" w).
Proof.
  intros Hparse Htype Htruthy Hk Hkey.
  destruct (pass_extends (handler_error k) payload
              (subscribed k w) (trace w)) as [typed Htyped].
  destruct (pass_extends catch_all_error payload (subscribed "*" w)
              (trace w ++ typed)) as [wild Hwild].
  exists typed, wild. repeat split; try done.
  - apply (dispatched_of _ (Normal tt)).
    rewrite (message_dispatch _ _ _ _ _ Hparse Htype Htruthy Hk Hkey).
    by rewrite Htyped, Hwild, <- app_assoc.
  - pose proof (invocations_pass (handler_error k) payload
                  (subscribed k w) (trace w)) as H.
    rewrite Htyped, invocations_app in H. by apply app_inv_head in H.
  - pose proof (invocations_pass catch_all_error payload
                  (subscribed "*" w) (trace w ++ typed)) as H.
    rewrite Hwild, invocations_app in H. by apply app_inv_head in H.
Qed.

(** *** The kinds of frame *)

Lemma message_cases data w :
  JSON.parse data = None
  ∨ JSON.parse data = Some VNull
  ∨ (∃ payload, JSON.parse data = Some payload ∧ payload ≠ VNull
                ∧ falsy (type_of payload) = true)
  ∨ (∃ payload t, JSON.parse data = Some payload ∧ type_of payload = Some t
                  ∧ truthy t = true ∧ to_string t = None)
  ∨ (∃ payload t k, JSON.parse data = Some payload ∧ type_of payload = Some t
                    ∧ truthy t = true ∧ to_string t = Some k ∧ inherited k w)
  ∨ (∃ payload t k, JSON.parse data = Some payload ∧ type_of payload = Some t
                    ∧ truthy t = true ∧ to_string t = Some k
                    ∧ ¬ inherited k w).
Proof.
  destruct (JSON.parse data) as [payload|]; [|by left].
  destruct (type_of payload) as [t|] eqn:Htype.
  - destruct (truthy t) eqn:Htruthy.
    + destruct (to_string t) as [k|] eqn:Hk.
      * destruct (decide (inherited k w)).
        -- do 4 right. left. by exists payload, t, k.
        -- do 5 right. by exists payload, t, k.
      * do 3 right. left. by exists payload, t.
    + do 2 right. left. exists payload. repeat split.
      * intros ->. done.
      * rewrite Htype. simpl. by rewrite Htruthy.
  - destruct payload;
      try (do 2 right; left; eexists; split; [done|]; split;
           [done | by rewrite Htype]).
    right. by left.
Qed.

(** The listener changes nothing but the trace, and only by adding to it. *)
Lemma message_appends data w :
  ∃ added, after (message_listener data) w = set_trace (trace w ++ added) w.
Proof.
  unfold after.
  destruct (message_cases data w)
    as [H|[H|[(payload & H & Hnull & Hfalsy)
             |[(payload & t & H & Htype & Htruthy & Hk)
              |[(payload & t & k & H & Htype & Htruthy & Hk & Hkey)
               |(payload & t & k & H & Htype & Htruthy & Hk & Hkey)]]]]].
  - rewrite message_not_json by done. by eexists.
  - rewrite message_null by done. exists []. simpl.
    by rewrite app_nil_r, set_trace_trace.
  - rewrite (message_no_type _ _ _ H Hnull Hfalsy). by eexists.
  - rewrite (message_unconvertible _ _ _ _ H Htype Htruthy Hk). exists [].
    simpl. by rewrite app_nil_r, set_trace_trace.
  - rewrite (message_inherited _ _ _ _ _ H Htype Htruthy Hk Hkey). exists [].
    simpl. by rewrite app_nil_r, set_trace_trace.
  - rewrite (message_dispatch _ _ _ _ _ H Htype Htruthy Hk Hkey). simpl.
    destruct (pass_extends (handler_error k) payload
                (subscribed k w) (trace w)) as [typed ->].
    destruct (pass_extends catch_all_error payload (subscribed "*" w)
                (trace w ++ typed)) as [wild ->].
    exists (typed ++ wild). by rewrite app_assoc.
Qed.

(** *** Timers *)

Lemma one_pending_same w w' :
  timers w' = timers w → next_timer w' = next_timer w →
  reconnectTimer w' = reconnectTimer w →
  one_pending w → one_pending w'.
Proof. unfold one_pending. by intros -> -> ->. Qed.

(** Cancelling any id keeps the invariant, whatever else changes beside the
    timers. *)
Lemma one_pending_filter i w w' :
  timers w' = filter (fun t => t.1 ≠ i) (timers w) →
  next_timer w' = next_timer w → reconnectTimer w' = reconnectTimer w →
  one_pending w → one_pending w'.
Proof.
  unfold one_pending. intros -> -> -> [Hone Hfresh]. split.
  - destruct Hone as [->|(j & -> & Hj)]; [by left|].
    rewrite filter_cons, filter_nil. simpl.
    destruct (decide (j ≠ i)); [right; by exists j | by left].
  - rewrite Forall_forall in *. intros t [_ Hin]%list_elem_of_filter.
    by apply Hfresh.
Qed.

Lemma one_pending_boot dom : one_pending (boot dom).
Proof.
  unfold boot, connect, setStatus. run. destruct dom; split; simpl; auto.
Qed.

(** What a closure does to the timers. *)
Lemma close_timers code reason w :
  one_pending w →
  timers (after (close_listener code reason) w)
  = [(next_timer w, RECONNECT_DELAY)]
  ∧ reconnectTimer (after (close_listener code reason) w)
    = Some (next_timer w)
  ∧ next_timer (after (close_listener code reason) w) = S (next_timer w)
  ∧ socket (after (close_listener code reason) w) = None.
Proof.
  intros [Hone _].
  unfold close_listener, scheduleReconnect, setStatus, setTimeout, clearTimeout.
  run. destruct (indicator w); simpl;
    destruct Hone as [Hnone|(i & Hsome & ->)]; simpl.
  all: try (destruct (reconnectTimer w); simpl; rewrite Hnone; done).
  all: rewrite Hsome, filter_cons, filter_nil; simpl;
    destruct (decide (i ≠ i)); done.
Qed.

Lemma host_readyState_timers rs w :
  timers (after (host_readyState rs) w) = timers w
  ∧ next_timer (after (host_readyState rs) w) = next_timer w
  ∧ reconnectTimer (after (host_readyState rs) w) = reconnectTimer w.
Proof. unfold host_readyState. run. by destruct (socket w). Qed.

Lemma step_close code reason w :
  step (SocketClose code reason) w
  = after (close_listener code reason) (after (host_readyState CLOSED) w).
Proof. unfold step, after, react, host_readyState. by run. Qed.

Lemma one_pending_step e w : one_pending w → one_pending (step e w).
Proof.
  intros Hinv. destruct e; try rewrite step_close; unfold step; simpl.
  - (* open *)
    destruct (host_readyState_timers OPEN w) as (Ht & Hn & Hr).
    unfold open_listener, setStatus, clearTimeout. run.
    destruct (host_readyState OPEN w) as [w0 c] eqn:Hhost.
    unfold host_readyState in Hhost. run. injection Hhost as <- <-. simpl.
    destruct (socket w); simpl; destruct (indicator w); simpl;
      destruct (reconnectTimer w) eqn:Hr'; simpl;
      solve [ eapply one_pending_same; [..|exact Hinv]; done
            | eapply one_pending_filter; [..|exact Hinv]; simpl; done ].
  - (* close *)
    destruct (host_readyState_timers CLOSED w) as (Ht & Hn & Hr).
    assert (one_pending (after (host_readyState CLOSED) w)) as Hinv0
      by (eapply one_pending_same; [..|exact Hinv]; done).
    destruct (close_timers code reason _ Hinv0) as (Ht' & Hr' & Hn' & _).
    split.
    + right. eexists. by rewrite Ht', Hr'.
    + rewrite Ht', Hn'. repeat constructor.
  - (* error *)
    unfold error_listener. run. by eapply one_pending_same; [..|exact Hinv].
  - (* message *)
    destruct (message_appends data w) as [added ->].
    by eapply one_pending_same; [..|exact Hinv].
  - (* readyState changed by the host *)
    destruct (host_readyState_timers rs w) as (Ht & Hn & Hr).
    by eapply one_pending_same; [..|exact Hinv].
  - (* the timer fires *)
    unfold reconnect, connect, setStatus, clearTimeout. run.
    case_bool_decide; simpl; [|done].
    destruct (indicator w); simpl;
      eapply one_pending_filter; [..|exact Hinv]; simpl; done.
  - (* send *)
    unfold send, socket_send. run.
    destruct (socket w) as [ws|]; simpl;
      [destruct (readyState ws =? OPEN)%Z eqn:Hopen; simpl;
       [apply Z.eqb_eq in Hopen; rewrite Hopen; simpl|]|];
      by eapply one_pending_same; [..|exact Hinv].
  - (* on *)
    destruct (decide (inherited type w)) as [Hkey|Hkey].
    + unfold after. by rewrite on_inherited.
    + unfold after. rewrite on_own by done.
      by eapply one_pending_same; [..|exact Hinv].
  - (* off *)
    rewrite off_world. destruct (handlers w !! type); [|done].
    by eapply one_pending_same; [..|exact Hinv].
  - (* isConnected *)
    unfold isConnected. run. by destruct (socket w).
Qed.

Lemma reachable_one_pending w : reachable w → one_pending w.
Proof.
  induction 1 as [dom|e w _ IH]; [apply one_pending_boot|].
  by apply one_pending_step.
Qed.

(** *** Exceptions of subscribers *)

Lemma caught_and_logged_app seen a1 a2 :
  caught_and_logged seen a1 → caught_and_logged (seen ++ a1) a2 →
  caught_and_logged seen (a1 ++ a2).
Proof.
  intros H1 H2 pre cb p e post Hsplit Hthrows.
  apply app_eq_app in Hsplit as [l [[-> Hl]|[-> ->]]].
  - destruct l as [|x l]; simpl in Hl.
    + rewrite app_nil_r in *. apply (H2 [] cb p e post); [by symmetry|].
      by rewrite <- app_assoc.
    + injection Hl as <- ->.
      destruct (H1 pre cb p e l eq_refl Hthrows) as (msg & post' & ->).
      by exists msg, (post' ++ a2).
  - apply (H2 l cb p e post eq_refl). by rewrite <- !app_assoc in *.
Qed.

Lemma caught_and_logged_nil seen : caught_and_logged seen [].
Proof. intros pre cb p e post H. by destruct pre. Qed.

Lemma pass_logged msg payload cbs seen added :
  pass msg payload cbs seen = seen ++ added → caught_and_logged seen added.
Proof.
  revert seen added. induction cbs as [|cb rest IH]; intros seen added; simpl.
  - intros H. rewrite <- (app_nil_r seen) in H at 1.
    apply app_inv_head in H as <-. apply caught_and_logged_nil.
  - destruct (callback cb payload (seen ++ [Invoke cb payload])) as [|e] eqn:Hcb.
    + destruct (pass_extends msg payload rest (seen ++ [Invoke cb payload]))
        as [more Hmore].
      rewrite Hmore, <- app_assoc. intros <-%app_inv_head.
      apply caught_and_logged_app; [|by apply (IH _ more)].
      intros pre cb' p e post Hsplit Hthrows.
      destruct pre as [|x [|y pre]]; simplify_eq/=. congruence.
    + rewrite <- app_assoc. simpl.
      destruct (pass_extends msg payload rest
                  (seen ++ [Invoke cb payload;
                            Console Error [AStr msg; AExn e]]))
        as [more Hmore].
      rewrite Hmore, <- app_assoc. intros <-%app_inv_head.
      apply (caught_and_logged_app seen [_; _]); [|by apply (IH _ more)].
      intros pre cb' p e' post Hsplit Hthrows.
      destruct pre as [|x [|y [|z pre]]]; simplify_eq/=.
      rewrite Hcb in Hthrows. injection Hthrows as <-. by eexists _, _.
Qed.

Lemma message_logged data w : caught_and_logged (trace w) (dispatched data w).
Proof.
  destruct (message_cases data w)
    as [H|[H|[(payload & H & Hnull & Hfalsy)
             |[(payload & t & H & Htype & Htruthy & Hk)
              |[(payload & t & k & H & Htype & Htruthy & Hk & Hkey)
               |(payload & t & k & H & Htype & Htruthy & Hk & Hkey)]]]]].
  - rewrite (dispatched_of _ _ _ _ (message_not_json _ w H)).
    intros pre cb p e post Hsplit. destruct pre as [|x [|y pre]]; simplify_eq/=.
  - rewrite (dispatched_nothing _ _ _ (message_null _ w H)).
    apply caught_and_logged_nil.
  - rewrite (dispatched_of _ _ _ _ (message_no_type _ _ w H Hnull Hfalsy)).
    intros pre cb p e post Hsplit. destruct pre as [|x [|y pre]]; simplify_eq/=.
  - rewrite (dispatched_nothing _ _ _
               (message_unconvertible _ _ _ _ H Htype Htruthy Hk)).
    apply caught_and_logged_nil.
  - rewrite (dispatched_nothing _ _ _
               (message_inherited _ _ _ _ _ H Htype Htruthy Hk Hkey)).
    apply caught_and_logged_nil.
  - destruct (dispatched_dispatch _ _ _ _ w H Htype Htruthy Hk Hkey)
      as (typed & wild & Htyped & Hwild & -> & _ & _).
    apply caught_and_logged_app; by eapply pass_logged.
Qed.

(** ** The claims *)

(** C1.  [send(m)] with the socket open adds exactly one transmission, of the
    serialized [m], to what the module has done, and returns [true]; in any
    other state it adds exactly one warning, no transmission, and returns
    [false].  Nothing else changes in either case. *)
Theorem send_open_or_refused payload w :
  send payload w
  = if is_open w
    then (set_trace (trace w ++ [Transmit (JSON_stringify payload)]) w,
          Normal true)
    else (set_trace
            (trace w ++ [Console Warn
                           [AStr "[WS] Cannot send — socket not open:";
                            AVal payload]]) w,
          Normal false).
Proof.
  unfold send, is_open, socket_send. run.
  destruct (socket w) as [ws|]; [|done].
  destruct (readyState ws =? OPEN)%Z eqn:Hopen; simpl; [|done].
  apply Z.eqb_eq in Hopen. by rewrite Hopen.
Qed.

(** C3, at the frame [null].  The text decodes, to [null]; reading its
    [type] throws, and the listener ends there: no subscriber is called and
    nothing changes, but no diagnostic is logged either. *)
Theorem null_frame_throws w :
  JSON.parse "null" = Some VNull
  ∧ message_listener "null" w
    = (w, Throw (TypeError "Cannot read properties of null (reading 'type')"))
  ∧ dispatched "null" w = [].
Proof.
  split; [done|]. split; [by apply message_null|].
  by eapply dispatched_nothing, message_null.
Qed.

(** C8, amended.  [isConnected()] changes nothing and returns [true] exactly
    when the socket is open; otherwise it returns a falsy value: [false]
    when there is a socket that is not open, and [null] when there is no
    socket. *)
Theorem isConnected_reads w :
  isConnected w
  = (w, Normal (if is_open w then VBool true
                else match socket w with
                     | Some _ => VBool false
                     | None => VNull
                     end)).
Proof.
  unfold isConnected, is_open. run.
  destruct (socket w) as [ws|]; [|done]. by destruct (readyState ws =? OPEN)%Z.
Qed.

(** C9.  A frame that decodes to an object whose [type] is present but
    falsy adds one warning, the one logged for a missing [type], and calls no
    subscriber; so does a frame whose object has no [type]. *)
Theorem falsy_type_dropped data members t w :
  JSON.parse data = Some (VObj members) →
  member "type" members = Some t →
  truthy t = false →
  message_listener data w
  = (set_trace (trace w ++ [Console Warn [AStr "[WS] No type in message:";
                                          AVal (VObj members)]]) w, Normal tt)
  ∧ invocations (dispatched data w) = []
  ∧ ∀ data' members',
      JSON.parse data' = Some (VObj members') →
      member "type" members' = None →
      message_listener data' w
      = (set_trace (trace w ++ [Console Warn [AStr "[WS] No type in message:";
                                              AVal (VObj members')]]) w,
         Normal tt).
Proof.
  intros Hparse Htype Hfalsy.
  assert (message_listener data w
          = (set_trace (trace w ++ [Console Warn [AStr "[WS] No type in message:";
                                                  AVal (VObj members)]]) w,
             Normal tt)) as Hdrop.
  { apply message_no_type; [done|done|]. simpl. rewrite Htype. simpl.
    by rewrite Hfalsy. }
  split; [done|]. split.
  - by rewrite (dispatched_of _ _ _ _ Hdrop).
  - intros data' members' Hparse' Hnone.
    apply message_no_type; [done|done|]. simpl. by rewrite Hnone.
Qed.

(** C10.  For a frame whose [type] is the string ["*"], the subscribers of
    the wildcard key are called in a first pass, as the subscribers of the
    frame's type, and again in the wildcard pass: each one twice. *)
Theorem star_frame_runs_wildcard_twice data payload w :
  JSON.parse data = Some payload →
  type_of payload = Some (VStr "*") →
  (message_listener data w).2 = Normal tt
  ∧ trace (after (message_listener data) w)
    = pass catch_all_error payload (subscribed "*" w)
        (pass (handler_error "*") payload (subscribed "*" w) (trace w))
  ∧ invocations (dispatched data w)
    = map (fun cb => (cb, payload)) (subscribed "*" w)
      ++ map (fun cb => (cb, payload)) (subscribed "*" w).
Proof.
  intros Hparse Htype.
  assert (¬ inherited "*" w) as Hkey by apply not_inherited, star_own.
  pose proof (message_dispatch _ _ _ _ w Hparse Htype eq_refl eq_refl Hkey)
    as Hrun.
  unfold after. rewrite Hrun. repeat split.
  destruct (dispatched_dispatch _ _ _ _ w Hparse Htype eq_refl eq_refl Hkey)
    as (typed & wild & _ & _ & -> & Htyped & Hwild).
  by rewrite invocations_app, Htyped, Hwild.
Qed.

(** C2, amended.  For every frame that decodes to a payload whose [type] is
    truthy and has a text, the key [k] its subscribers are stored under, that
    is not the name of a member inherited from [Object.prototype], the
    listener returns after calling the subscribers of that key in the order
    of their array, then the subscribers of the wildcard key in the order of
    theirs, whether or not the first array was empty; every call is given
    the decoded payload.  The order of an array is the order of
    registration: [on] appends. *)
Theorem typed_then_wildcard data payload t k w :
  JSON.parse data = Some payload →
  type_of payload = Some t →
  truthy t = true →
  to_string t = Some k →
  k ∉ Object_prototype →
  (message_listener data w).2 = Normal tt
  ∧ invocations (dispatched data w)
    = map (fun cb => (cb, payload)) (subscribed k w)
      ++ map (fun cb => (cb, payload)) (subscribed "*" w)
  ∧ ∀ w0 k0 h, k0 ∉ Object_prototype →
      subscribed k0 (after (on k0 h) w0) = subscribed k0 w0 ++ [h].
Proof.
  intros Hparse Htype Htruthy Hk Hkey. apply (not_inherited _ w) in Hkey.
  split; [by rewrite (message_dispatch _ _ _ _ _ Hparse Htype Htruthy Hk Hkey)|].
  split.
  - destruct (dispatched_dispatch _ _ _ _ w Hparse Htype Htruthy Hk Hkey)
      as (typed & wild & _ & _ & -> & Htyped & Hwild).
    by rewrite invocations_app, Htyped, Hwild.
  - intros w0 k0 h Hk0. by apply subscribed_on, not_inherited.
Qed.

Lemma filter_absent (h : handler) (cbs : list handler) :
  h ∉ cbs → filter (fun c => c ≠ h) cbs = cbs.
Proof.
  induction cbs as [|c cbs IH]; [done|]. intros Hnot.
  rewrite filter_cons. destruct (decide (c ≠ h)) as [_|Heq].
  - f_equal. apply IH. intros Hin. apply Hnot. by right.
  - exfalso. apply Hnot. destruct (decide (c = h)) as [->|]; [by left|done].
Qed.

(** C6, amended.  [off(t, h)] leaves under [t] the subscribers other than
    [h], in their order, and touches no other key; it changes nothing at all
    when [h] was not subscribed under [t]; it returns when [t] is not the
    name of an inherited member.  A later frame whose type has the key [t]
    calls [h] only if [h] is subscribed under the wildcard key. *)
Theorem off_removes_all t h w :
  subscribed t (after (off t h) w) = filter (fun c => c ≠ h) (subscribed t w)
  ∧ (h ∉ subscribed t (after (off t h) w))
  ∧ (∀ k, k ≠ t → subscribed k (after (off t h) w) = subscribed k w)
  ∧ (h ∉ subscribed t w → after (off t h) w = w)
  ∧ (t ∉ Object_prototype → (off t h w).2 = Normal tt)
  ∧ ∀ data payload tv p,
      JSON.parse data = Some payload →
      type_of payload = Some tv →
      to_string tv = Some t →
      (h, p) ∈ invocations (dispatched data (after (off t h) w)) →
      h ∈ subscribed "*" (after (off t h) w).
Proof.
  assert (h ∉ subscribed t (after (off t h) w)) as Hgone.
  { rewrite subscribed_off. intros [Hne _]%list_elem_of_filter. done. }
  split; [apply subscribed_off|]. split; [done|].
  split; [intros k Hk; by apply subscribed_off_other|]. split; [|split].
  - intros Hnot. rewrite off_world. unfold subscribed in Hnot.
    destruct (handlers w !! t) as [cbs|] eqn:Hown; [|done]. simpl in Hnot.
    by rewrite filter_absent, insert_id, set_handlers_handlers.
  - intros Hkey. by apply off_returns, not_inherited.
  - intros data payload tv p Hparse Htype Hk Hin.
    set (w' := after (off t h) w) in *.
    destruct (truthy tv) eqn:Htruthy.
    + destruct (decide (inherited t w')) as [Hkey|Hkey].
      * rewrite (dispatched_nothing _ _ _
                   (message_inherited _ _ _ _ _ Hparse Htype Htruthy Hk Hkey))
          in Hin.
        by apply elem_of_nil in Hin.
      * destruct (dispatched_dispatch _ _ _ _ w' Hparse Htype Htruthy Hk Hkey)
          as (typed & wild & _ & _ & Hd & Htyped & Hwild).
        rewrite Hd, invocations_app, Htyped, Hwild in Hin.
        apply elem_of_app in Hin as [Hin|Hin];
          apply list_elem_of_fmap in Hin as (cb & [= <- _] & Hcb); done.
    + assert (payload ≠ VNull) as Hnull by (intros ->; done).
      assert (falsy (type_of payload) = true) as Hfalsy
        by (rewrite Htype; simpl; by rewrite Htruthy).
      rewrite (dispatched_of _ _ _ _
                 (message_no_type _ _ w' Hparse Hnull Hfalsy)) in Hin.
      by apply elem_of_nil in Hin.
Qed.

(** C7, amended.  For a type that is not the name of an inherited member,
    registering the same handler twice returns both times and appends it
    twice, so the second registration is not a no-op.  A later frame of that
    type, the type not being the empty string, calls it once per
    registration in the pass over the type's subscribers: the calls of that
    pass are those before the registrations and two more of the handler.
    The wildcard pass follows with its own calls. *)
Theorem on_twice_registers_twice t h w :
  t ∉ Object_prototype →
  (on t h w).2 = Normal tt
  ∧ snd (on t h (after (on t h) w)) = Normal tt
  ∧ subscribed t (after (on t h) (after (on t h) w)) = subscribed t w ++ [h; h]
  ∧ after (on t h) (after (on t h) w) ≠ after (on t h) w
  ∧ ∀ data payload,
      JSON.parse data = Some payload →
      type_of payload = Some (VStr t) →
      t ≠ "" →
      ∃ typed wild,
        dispatched data (after (on t h) (after (on t h) w)) = typed ++ wild
        ∧ invocations typed
          = map (fun cb => (cb, payload)) (subscribed t w ++ [h; h])
        ∧ invocations wild
          = map (fun cb => (cb, payload))
              (subscribed "*" (after (on t h) (after (on t h) w))).
Proof.
  intros Hkey.
  assert (∀ w0, ¬ inherited t w0) as Hown
    by (intros w0; by apply not_inherited).
  set (w1 := after (on t h) w). set (w2 := after (on t h) w1).
  assert (subscribed t w2 = subscribed t w ++ [h; h]) as Htwice.
  { unfold w2, w1. rewrite !subscribed_on by apply Hown.
    by rewrite <- app_assoc. }
  split; [by rewrite (on_own _ _ _ (Hown w))|].
  split; [by rewrite (on_own _ _ _ (Hown w1))|].
  split; [done|]. split.
  - intros Hsame.
    assert (subscribed t w2 = subscribed t w1) as Heq by (by rewrite Hsame).
    rewrite Htwice in Heq. unfold w1 in Heq.
    rewrite subscribed_on in Heq by apply Hown.
    apply app_inv_head in Heq. done.
  - intros data payload Hparse Htype Hne.
    assert (truthy (VStr t) = true) as Htruthy.
    { simpl. by rewrite (proj2 (String.eqb_neq t "")). }
    destruct (dispatched_dispatch _ _ _ t w2 Hparse Htype Htruthy eq_refl
                (not_inherited _ _ Hkey))
      as (typed & wild & _ & _ & Hd & Htyped & Hwild).
    exists typed, wild. by rewrite <- Htwice.
Qed.

(** C4.  In every world the module can reach, at most one timer is pending.
    A closure leaves exactly one, just created and set for 3000 ms, with
    [reconnectTimer] holding its id, whatever was pending before being
    cancelled; a second closure before it fires leaves exactly one again, a
    new one in place of the first. *)
Theorem one_pending_reconnect w :
  reachable w →
  (length (timers w) ≤ 1)%nat
  ∧ ∀ code reason,
      let w1 := step (SocketClose code reason) w in
      timers w1 = [(next_timer w, 3000%Z)]
      ∧ reconnectTimer w1 = Some (next_timer w)
      ∧ (next_timer w ∉ (timers w).*1)
      ∧ ∀ code' reason',
          let w2 := step (SocketClose code' reason') w1 in
          timers w2 = [(next_timer w1, 3000%Z)]
          ∧ reconnectTimer w2 = Some (next_timer w1)
          ∧ next_timer w1 ≠ next_timer w.
Proof.
  intros Hreach. pose proof (reachable_one_pending w Hreach) as Hinv.
  assert (∀ w0 code reason, one_pending w0 →
            timers (step (SocketClose code reason) w0)
            = [(next_timer w0, 3000%Z)]
            ∧ reconnectTimer (step (SocketClose code reason) w0)
              = Some (next_timer w0)
            ∧ next_timer (step (SocketClose code reason) w0)
              = S (next_timer w0)) as Hclose.
  { intros w0 code reason Hinv0.
    destruct (host_readyState_timers CLOSED w0) as (Ht & Hn & Hr).
    assert (one_pending (after (host_readyState CLOSED) w0)) as Hinv1
      by (eapply one_pending_same; [..|exact Hinv0]; done).
    destruct (close_timers code reason _ Hinv1) as (Ht' & Hr' & Hn' & _).
    rewrite Hn in Ht', Hr', Hn'.
    by rewrite step_close. }
  split.
  - destruct Hinv as [[->|(i & -> & _)] _]; simpl; lia.
  - intros code reason w1.
    destruct (Hclose w code reason Hinv) as (Ht & Hr & Hn).
    split; [done|]. split; [done|]. split.
    + destruct Hinv as [_ Hfresh]. intros Hin.
      apply list_elem_of_fmap in Hin as (t & Heq & Hin).
      rewrite Forall_forall in Hfresh. apply Hfresh in Hin. lia.
    + intros code' reason' w2.
      assert (one_pending w1) as Hinv1
        by (apply reachable_one_pending; by constructor).
      destruct (Hclose w1 code' reason' Hinv1) as (Ht2 & Hr2 & _).
      split; [done|]. split; [done|]. unfold w1. rewrite Hn. lia.
Qed.

(** ** The rest of the module: lifecycle, registry, status *)

(** What an event leaves of the registry. *)
Lemma step_handlers e w :
  handlers (step e w)
  = match e with
    | ApiOn t h => handlers (after (on t h) w)
    | ApiOff t h => handlers (after (off t h) w)
    | _ => handlers w
    end.
Proof.
  destruct e; try done; unfold step; simpl;
    try (by destruct (message_appends data w) as [added ->]);
    destruct w as [sock rt hs ts nt ind tr];
    unfold host_readyState, open_listener, close_listener, error_listener,
      scheduleReconnect, reconnect, connect, setStatus, setTimeout,
      clearTimeout, send, socket_send, isConnected; run.
  - by destruct sock, ind, rt.
  - by destruct sock, ind, rt.
  - by destruct sock.
  - case_bool_decide; simpl; [|done]. by destruct ind.
  - destruct sock as [ws|]; simpl; [|done].
    destruct (readyState ws =? OPEN)%Z eqn:Hopen; simpl; [|done].
    apply Z.eqb_eq in Hopen. by rewrite Hopen.
  - by destruct sock.
Qed.

(** X1.  Subscriptions survive everything but [on] and [off]: no sequence
    of socket events, timer firings, frames, sends and reads, however long,
    changes the registry; it is not cleared on closure nor on
    reconnection. *)
Theorem registry_survives es w :
  forallb (fun e => negb (is_subscription e)) es = true →
  handlers (steps es w) = handlers w.
Proof.
  revert w. induction es as [|e es IH]; intros w; simpl; [done|].
  intros [He Hes]%andb_prop. unfold steps in *. rewrite IH by done.
  rewrite step_handlers. by destruct e.
Qed.

(** What an event leaves of the timers. *)
Lemma step_timers e w :
  match e with
  | SocketClose _ _ => True
  | _ =>
      next_timer (step e w) = next_timer w
      ∧ reconnectTimer (step e w) = reconnectTimer w
      ∧ timers (step e w) ⊆ timers w
  end.
Proof.
  assert (∀ (i : nat) (l : list (nat * Z)),
            filter (fun t => t.1 ≠ i) l ⊆ l) as Hsub.
  { intros i l t [_ Hin]%list_elem_of_filter. done. }
  destruct e as [|code reason| |data|rs|id|payload|type cb|type cb|];
    unfold step; simpl; [| done | | | | | | | |].
  - destruct w as [sock rt hs ts nt ind tr].
    unfold host_readyState, open_listener, setStatus, clearTimeout. run.
    destruct sock, ind, rt as [i|]; simpl; repeat split; try done;
      apply Hsub.
  - unfold error_listener. run. by repeat split.
  - destruct (message_appends data w) as [added ->]. by repeat split.
  - unfold host_readyState. run. by destruct (socket w); repeat split.
  - destruct w as [sock rt hs ts nt ind tr].
    unfold reconnect, connect, setStatus, clearTimeout. run.
    case_bool_decide; simpl; [|by repeat split].
    destruct ind; simpl; repeat split; apply Hsub.
  - unfold send, socket_send. run.
    destruct (socket w) as [ws|]; simpl;
      [destruct (readyState ws =? OPEN)%Z eqn:Hopen; simpl;
       [apply Z.eqb_eq in Hopen; rewrite Hopen; simpl|]|];
      by repeat split.
  - destruct (decide (inherited type w)) as [Hkey|Hkey]; unfold after.
    + rewrite on_inherited by done. by repeat split.
    + rewrite on_own by done. by repeat split.
  - rewrite off_world. by destruct (handlers w !! type); repeat split.
  - unfold isConnected. run. by destruct (socket w); repeat split.
Qed.

(** X2.  Only a closure schedules a reconnection: over any sequence of
    events without a close event (error events included), every timer
    pending at the end was pending at the start and no timer was created. *)
Theorem only_close_schedules es w :
  forallb (fun e => negb (is_close e)) es = true →
  timers (steps es w) ⊆ timers w
  ∧ next_timer (steps es w) = next_timer w.
Proof.
  revert w. induction es as [|e es IH]; intros w; simpl; [done|].
  intros [He Hes]%andb_prop. unfold steps in *.
  destruct (IH (step e w) Hes) as [Hsub Hnext].
  pose proof (step_timers e w) as Hstep.
  destruct e; try done; destruct Hstep as (Hn & _ & Ht);
    (split; [by etrans | by rewrite Hnext]).
Qed.

Lemma step_open_timers w :
  timers (step SocketOpen w)
  = match reconnectTimer w with
    | Some i => filter (fun t => t.1 ≠ i) (timers w)
    | None => timers w
    end.
Proof.
  destruct w as [sock rt hs ts nt ind tr]. unfold step. simpl.
  unfold host_readyState, open_listener, setStatus, clearTimeout. run.
  by destruct sock, ind, rt.
Qed.

(** X3.  Once the socket has opened no reconnection is pending: the open
    listener cancels the timer a closure had set, if it has not fired. *)
Theorem open_cancels_reconnect w :
  reachable w → timers (step SocketOpen w) = [].
Proof.
  intros [[Hnone|(i & Hone & Hrt)] _]%reachable_one_pending;
    rewrite step_open_timers.
  - rewrite Hnone. by destruct (reconnectTimer w).
  - rewrite Hrt, Hone, filter_cons, filter_nil. simpl.
    by destruct (decide (i ≠ i)).
Qed.

Lemma step_socket_none e w :
  socket w = None → is_timer e = false → socket (step e w) = None.
Proof.
  intros Hnone Htimer.
  destruct e as [|code reason| |data|rs|id|payload|type cb|type cb|];
    try done; try rewrite step_close; unfold step; simpl.
  - destruct w as [sock rt hs ts nt ind tr]. simpl in Hnone. subst sock.
    unfold host_readyState, open_listener, setStatus, clearTimeout. run.
    by destruct ind, rt.
  - destruct w as [sock rt hs ts nt ind tr]. simpl in Hnone. subst sock.
    unfold host_readyState, close_listener, scheduleReconnect, setStatus,
      setTimeout, clearTimeout. run. by destruct ind, rt.
  - by destruct (message_appends data w) as [added ->].
  - unfold host_readyState. run. by rewrite Hnone.
  - unfold send. run. by rewrite Hnone.
  - destruct (decide (inherited type w)) as [Hkey|Hkey]; unfold after.
    + by rewrite on_inherited.
    + by rewrite on_own.
  - rewrite off_world. by destruct (handlers w !! type).
  - unfold isConnected. run. by rewrite Hnone.
Qed.

(** X4.  After a closure the module stays disconnected until its timer
    fires: whatever else happens in between (open or error events of old
    sockets, frames, further closures, API calls), there is no socket,
    [send] transmits nothing and returns [false], and [isConnected()]
    returns [null]. *)
Theorem closed_until_timer code reason es payload w :
  forallb (fun e => negb (is_timer e)) es = true →
  socket (steps es (step (SocketClose code reason) w)) = None
  ∧ send payload (steps es (step (SocketClose code reason) w))
    = (set_trace
         (trace (steps es (step (SocketClose code reason) w))
            ++ [Console Warn [AStr "[WS] Cannot send — socket not open:";
                              AVal payload]])
         (steps es (step (SocketClose code reason) w)),
       Normal false)
  ∧ snd (isConnected (steps es (step (SocketClose code reason) w)))
    = Normal VNull.
Proof.
  intros Hes.
  assert (socket (steps es (step (SocketClose code reason) w)) = None) as Hnone.
  { assert (socket (step (SocketClose code reason) w) = None) as H0.
    { rewrite step_close. destruct w as [sock rt hs ts nt ind tr].
      unfold host_readyState, close_listener, scheduleReconnect, setStatus,
        setTimeout, clearTimeout. run. by destruct sock, ind, rt. }
    revert H0 Hes. generalize (step (SocketClose code reason) w).
    induction es as [|e es IH]; intros w0 H0 Hes; simpl in *; [done|].
    apply andb_prop in Hes as [He Hes]. apply IH; [|done].
    apply step_socket_none; [done|]. by destruct (is_timer e). }
  split; [done|]. unfold send, isConnected. run. by rewrite Hnone.
Qed.

Lemma pending_timer_fires i w :
  one_pending w → i ∈ (timers w).*1 →
  socket (step (TimerFired i) w)
  = Some {| url := WS_URL; readyState := CONNECTING |}
  ∧ timers (step (TimerFired i) w) = []
  ∧ handlers (step (TimerFired i) w) = handlers w
  ∧ trace (step (TimerFired i) w)
    = trace w ++ [Console Log [AStr "[WS] Attempting reconnect..."];
                  Construct WS_URL].
Proof.
  intros [Hone _] Hin. destruct w as [sock rt hs ts nt ind tr]. simpl in *.
  unfold step. simpl. unfold reconnect, connect, setStatus, clearTimeout. run.
  rewrite bool_decide_eq_true_2 by done. simpl.
  assert (filter (fun t : nat * Z => t.1 ≠ i) ts = []) as Hgone.
  { destruct Hone as [->|(j & -> & _)]; [done|].
    apply list_elem_of_fmap in Hin as (t & -> & Ht).
    apply list_elem_of_singleton in Ht as ->. simpl.
    rewrite filter_cons, filter_nil. simpl. by destruct (decide (j ≠ j)). }
  destruct ind; simpl; rewrite Hgone; repeat split; by rewrite <- app_assoc.
Qed.

(** X5.  When the pending timer fires the module reconnects: it logs the
    attempt and constructs a new socket for the same address, which is
    connecting; no timer is pending any more and the registry is as it
    was.  A timer id that is not pending does nothing. *)
Theorem timer_fires_reconnect i w :
  reachable w →
  (i ∈ (timers w).*1 →
   socket (step (TimerFired i) w)
   = Some {| url := WS_URL; readyState := CONNECTING |}
   ∧ timers (step (TimerFired i) w) = []
   ∧ handlers (step (TimerFired i) w) = handlers w
   ∧ trace (step (TimerFired i) w)
     = trace w ++ [Console Log [AStr "[WS] Attempting reconnect..."];
                   Construct WS_URL])
  ∧ (i ∉ (timers w).*1 → step (TimerFired i) w = w).
Proof.
  intros Hone%reachable_one_pending. split.
  - by apply pending_timer_fires.
  - intros Hout. unfold step. simpl. run.
    by rewrite bool_decide_eq_false_2.
Qed.

(** X6.  The module recovers from a closure by itself: after the close
    event, the firing of the timer it set and the open event of the new
    socket, the socket is open, no timer is pending, the subscriptions are
    those held before the closure, and [send] transmits again. *)
Theorem recovers_after_closure code reason payload w :
  reachable w →
  is_open (steps [SocketClose code reason; TimerFired (next_timer w);
                  SocketOpen] w) = true
  ∧ timers (steps [SocketClose code reason; TimerFired (next_timer w);
                   SocketOpen] w) = []
  ∧ handlers (steps [SocketClose code reason; TimerFired (next_timer w);
                     SocketOpen] w) = handlers w
  ∧ snd (send payload
           (steps [SocketClose code reason; TimerFired (next_timer w);
                   SocketOpen] w)) = Normal true.
Proof.
  intros Hreach. simpl.
  set (w1 := step (SocketClose code reason) w).
  set (w2 := step (TimerFired (next_timer w)) w1).
  set (w3 := step SocketOpen w2).
  assert (reachable w1) as Hr1 by (by constructor).
  assert (reachable w2) as Hr2 by (by constructor).
  pose proof (reachable_one_pending w Hreach) as Hinv.
  destruct (host_readyState_timers CLOSED w) as (Ht & Hn & Hr).
  assert (one_pending (after (host_readyState CLOSED) w)) as Hinv0
    by (eapply one_pending_same; [..|exact Hinv]; done).
  destruct (close_timers code reason _ Hinv0) as (Ht1 & _ & _ & _).
  rewrite <- step_close, Hn in Ht1. fold w1 in Ht1.
  destruct (pending_timer_fires (next_timer w) w1) as (Hs2 & Ht2 & Hh2 & _);
    [by apply reachable_one_pending|rewrite Ht1; by left|].
  fold w2 in Hs2, Ht2, Hh2.
  assert (is_open w3 = true) as Hopen.
  { unfold w3, step. simpl. destruct w2 as [sock rt hs ts nt ind tr].
    simpl in Hs2. subst sock.
    unfold is_open, host_readyState, open_listener, setStatus, clearTimeout.
    run. by destruct ind, rt. }
  split; [done|]. split.
  { unfold w3. rewrite step_open_timers. fold w2. rewrite Ht2.
    by destruct (reconnectTimer w2). }
  split.
  - unfold w3, w2, w1. by rewrite !step_handlers.
  - unfold send, socket_send. run. unfold is_open in Hopen.
    destruct (socket w3) as [ws|]; [|done]. rewrite Hopen. simpl.
    apply Z.eqb_eq in Hopen. by rewrite Hopen.
Qed.

(** X7.  A frame never changes the connection: whatever text arrives, the
    listener leaves the socket, the timers, the registry and the indicator
    as they were and only adds to the log of what was done. *)
Theorem frame_changes_only_log data w :
  socket (step (SocketMessage data) w) = socket w
  ∧ timers (step (SocketMessage data) w) = timers w
  ∧ reconnectTimer (step (SocketMessage data) w) = reconnectTimer w
  ∧ handlers (step (SocketMessage data) w) = handlers w
  ∧ indicator (step (SocketMessage data) w) = indicator w
  ∧ trace (step (SocketMessage data) w) = trace w ++ dispatched data w.
Proof.
  unfold step, dispatched. simpl.
  destruct (message_appends data w) as [added ->]. simpl.
  by rewrite drop_app_length.
Qed.

Lemma off_inherited t h w :
  inherited t w →
  off t h w = (w, Throw (TypeError "handlers[type].filter is not a function")).
Proof.
  intros Hkey. unfold off, mbind, M_bind.
  by rewrite (handlers_get_inherited _ _ Hkey).
Qed.

Lemma reachable_no_inherited k w :
  reachable w → k ∈ Object_prototype → handlers w !! k = None.
Proof.
  intros Hreach Hk. induction Hreach as [dom|e w _ IH].
  - by destruct dom.
  - rewrite step_handlers. destruct e as [| | | | | | |t h|t h|]; try done.
    + destruct (decide (inherited t w)) as [Hin|Hown]; unfold after.
      * by rewrite on_inherited.
      * rewrite on_own by done. simpl.
        destruct (decide (k = t)) as [->|Hne]; [|by rewrite lookup_insert_ne].
        exfalso. by apply Hown.
    + rewrite off_world. destruct (handlers w !! t) eqn:Hown; [|done]. simpl.
      destruct (decide (k = t)) as [->|Hne]; [congruence|].
      by rewrite lookup_insert_ne.
Qed.

(** X8.  The registry is a plain object, so in every state the module can
    reach the names of [Object.prototype] members cannot be used as
    types: [on] and [off] throw a [TypeError] on them and change nothing,
    nothing is ever registered under them, and a frame whose type has such
    a key makes the listener throw before any subscriber, wildcard ones
    included, is called. *)
Theorem prototype_names_unusable k h w :
  reachable w → k ∈ Object_prototype →
  on k h w = (w, Throw (TypeError "handlers[type].push is not a function"))
  ∧ off k h w
    = (w, Throw (TypeError "handlers[type].filter is not a function"))
  ∧ subscribed k w = []
  ∧ ∀ data payload t,
      JSON.parse data = Some payload → type_of payload = Some t →
      truthy t = true → to_string t = Some k →
      message_listener data w
      = (w, Throw (TypeError
                     "(handlers[type] || []).forEach is not a function"))
      ∧ dispatched data w = [].
Proof.
  intros Hreach Hk.
  pose proof (reachable_no_inherited k w Hreach Hk) as Hnone.
  assert (inherited k w) as Hin by done.
  split; [by apply on_inherited|]. split; [by apply off_inherited|].
  split; [unfold subscribed; by rewrite Hnone|].
  intros data payload t Hparse Htype Htruthy Hkey.
  pose proof (message_inherited _ _ _ _ _ Hparse Htype Htruthy Hkey Hin)
    as Hrun.
  split; [done|]. by eapply dispatched_nothing.
Qed.

(** X9.  Unsubscribing is idempotent: a second [off(t, h)] changes nothing
    the first has not changed. *)
Theorem off_idempotent t h w :
  after (off t h) (after (off t h) w) = after (off t h) w.
Proof.
  rewrite (off_world t h (after (off t h) w)). rewrite off_world.
  destruct (handlers w !! t) as [cbs|] eqn:Hown; simpl; [|by rewrite Hown].
  rewrite lookup_insert_eq, insert_insert_eq.
  rewrite filter_absent; [done|].
  intros [Hne _]%list_elem_of_filter. done.
Qed.

(** X10.  [off(t, h)] after [on(t, h)] does not undo it in general: it
    removes every registration of [h] under [t], the earlier ones too.  The
    pair restores the subscribers of [t] exactly when [h] was not among
    them; other types are untouched either way. *)
Theorem off_after_on t h w :
  t ∉ Object_prototype →
  subscribed t (after (off t h) (after (on t h) w))
  = filter (fun c => c ≠ h) (subscribed t w)
  ∧ (h ∉ subscribed t w →
     subscribed t (after (off t h) (after (on t h) w)) = subscribed t w)
  ∧ (h ∈ subscribed t w →
     subscribed t (after (off t h) (after (on t h) w)) ≠ subscribed t w)
  ∧ ∀ k, k ≠ t →
      subscribed k (after (off t h) (after (on t h) w)) = subscribed k w.
Proof.
  intros Hkey.
  assert (subscribed t (after (off t h) (after (on t h) w))
          = filter (fun c => c ≠ h) (subscribed t w)) as Heq.
  { rewrite subscribed_off, subscribed_on by by apply not_inherited.
    rewrite filter_app, filter_cons, filter_nil. simpl.
    destruct (decide (h ≠ h)); [done|]. by rewrite app_nil_r. }
  split; [done|]. split; [|split].
  - intros Hnot. by rewrite Heq, filter_absent.
  - intros Hin Hsame. rewrite Heq in Hsame. rewrite <- Hsame in Hin.
    apply list_elem_of_filter in Hin as [Hne _]. done.
  - intros k Hne. by rewrite subscribed_off_other, subscribed_on_other.
Qed.

(** The calls and logs of a frame depend on the state only through the
    trace and the registry entries of the frame's key and of the wildcard
    key. *)
Lemma dispatched_agree data w w' :
  trace w' = trace w →
  (∀ payload t k, JSON.parse data = Some payload →
                  type_of payload = Some t → to_string t = Some k →
                  handlers w' !! k = handlers w !! k) →
  handlers w' !! "*" = handlers w !! "*" →
  dispatched data w' = dispatched data w.
Proof.
  intros Htrace Hkey Hstar.
  destruct (message_cases data w)
    as [H|[H|[(payload & H & Hnull & Hfalsy)
             |[(payload & t & H & Htype & Htruthy & Hk)
              |[(payload & t & k & H & Htype & Htruthy & Hk & Hin)
               |(payload & t & k & H & Htype & Htruthy & Hk & Hown)]]]]].
  - by rewrite (dispatched_of _ _ _ _ (message_not_json _ w H)),
      (dispatched_of _ _ _ _ (message_not_json _ w' H)).
  - by rewrite (dispatched_nothing _ _ _ (message_null _ w H)),
      (dispatched_nothing _ _ _ (message_null _ w' H)).
  - by rewrite (dispatched_of _ _ _ _ (message_no_type _ _ w H Hnull Hfalsy)),
      (dispatched_of _ _ _ _ (message_no_type _ _ w' H Hnull Hfalsy)).
  - by rewrite (dispatched_nothing _ _ _
                  (message_unconvertible _ _ _ w H Htype Htruthy Hk)),
      (dispatched_nothing _ _ _
         (message_unconvertible _ _ _ w' H Htype Htruthy Hk)).
  - assert (inherited k w') as Hin'.
    { destruct Hin as [Hproto Hnone]. split; [done|].
      by rewrite (Hkey _ _ _ H Htype Hk). }
    by rewrite (dispatched_nothing _ _ _
                  (message_inherited _ _ _ _ _ H Htype Htruthy Hk Hin)),
      (dispatched_nothing _ _ _
         (message_inherited _ _ _ _ _ H Htype Htruthy Hk Hin')).
  - assert (¬ inherited k w') as Hown'.
    { intros [Hproto Hnone]. apply Hown. split; [done|].
      by rewrite <- (Hkey _ _ _ H Htype Hk). }
    unfold dispatched, after.
    rewrite (message_dispatch _ _ _ _ w H Htype Htruthy Hk Hown),
      (message_dispatch _ _ _ _ w' H Htype Htruthy Hk Hown'). simpl.
    unfold subscribed. by rewrite Htrace, Hstar, (Hkey _ _ _ H Htype Hk).
Qed.

(** X11.  Subscriptions under one type do not leak into another: a frame
    whose key is not [t] is handled the same, call for call and log for
    log, before and after [on(t, h)] or [off(t, h)], unless [t] is the
    wildcard key. *)
Theorem other_types_unaffected t h data w :
  t ≠ "*" →
  (∀ payload tv, JSON.parse data = Some payload →
                 type_of payload = Some tv → to_string tv ≠ Some t) →
  dispatched data (after (on t h) w) = dispatched data w
  ∧ dispatched data (after (off t h) w) = dispatched data w.
Proof.
  intros Hstar Hother.
  assert (∀ payload tv k, JSON.parse data = Some payload →
            type_of payload = Some tv → to_string tv = Some k → t ≠ k)
    as Hne.
  { intros payload tv k Hparse Htype Hk ->. by apply (Hother _ _ Hparse Htype). }
  split; apply dispatched_agree.
  - unfold after. destruct (decide (inherited t w)).
    + by rewrite on_inherited.
    + by rewrite on_own.
  - intros payload tv k Hparse Htype Hk.
    specialize (Hne _ _ _ Hparse Htype Hk).
    unfold after. destruct (decide (inherited t w)).
    + by rewrite on_inherited.
    + rewrite on_own by done. simpl. by rewrite lookup_insert_ne.
  - unfold after. destruct (decide (inherited t w)).
    + by rewrite on_inherited.
    + rewrite on_own by done. simpl. by rewrite lookup_insert_ne.
  - rewrite off_world. by destruct (handlers w !! t).
  - intros payload tv k Hparse Htype Hk.
    specialize (Hne _ _ _ Hparse Htype Hk).
    rewrite off_world. destruct (handlers w !! t); [|done]. simpl.
    by rewrite lookup_insert_ne.
  - rewrite off_world. destruct (handlers w !! t); [|done]. simpl.
    by rewrite lookup_insert_ne.
Qed.

(** X12.  The status indicator follows the lifecycle and nothing else: an
    open event shows "connected", a close event "disconnected", the firing
    of the pending timer "loading", class and label together; every other
    event (errors, frames, sends, subscriptions) leaves it as it is; and
    when either element is missing from the page nothing is ever shown. *)
Theorem indicator_follows_lifecycle e w :
  indicator (step e w)
  = match indicator w with
    | None => None
    | Some now =>
        match e with
        | SocketOpen => Some (shown connected)
        | SocketClose _ _ => Some (shown disconnected)
        | TimerFired id =>
            if bool_decide (id ∈ (timers w).*1) then Some (shown loading)
            else Some now
        | _ => Some now
        end
    end.
Proof.
  destruct e as [|code reason| |data|rs|id|payload|type cb|type cb|];
    try rewrite step_close; unfold step; simpl.
  4: { destruct (message_appends data w) as [added ->]. simpl.
       by destruct (indicator w). }
  7: { destruct (decide (inherited type w)) as [Hkey|Hkey]; unfold after.
       - rewrite on_inherited by done. simpl. by destruct (indicator w).
       - rewrite on_own by done. simpl. by destruct (indicator w). }
  7: { rewrite off_world.
       destruct (handlers w !! type); simpl; by destruct (indicator w). }
  all: destruct w as [sock rt hs ts nt ind tr];
    unfold host_readyState, open_listener, close_listener, error_listener,
      scheduleReconnect, reconnect, connect, setStatus, setTimeout,
      clearTimeout, send, socket_send, isConnected; run.
  - by destruct sock, ind, rt.
  - by destruct sock, ind, rt.
  - by destruct ind.
  - by destruct sock, ind.
  - case_bool_decide; simpl; by destruct ind.
  - destruct sock as [ws|]; simpl; [|by destruct ind].
    destruct (readyState ws =? OPEN)%Z eqn:Hopen; simpl; [|by destruct ind].
    apply Z.eqb_eq in Hopen. rewrite Hopen. simpl. by destruct ind.
  - by destruct sock, ind.
Qed.

(** ** table.js *)

Lemma or_empty_array_not_null x : or_empty_array x ≠ VNull.
Proof. by destruct x as [[]|]. Qed.

(** What has no text holds an object. *)
Lemma to_string_None v :
  to_string v = None → (∃ items, v = VArr items) ∨ ∃ members, v = VObj members.
Proof. destruct v as [|[]| | | |]; try done; intros _; eauto. Qed.

(** X13.  On a payload the channel dispatches (one that has a [type], so is
    not [null]) the table's subscriber does nothing when [payload.status] is
    not the string ["ok"]; when it is, it logs one line with the length of
    [payload.data.records], or of an empty array when there is none, and
    returns, unless that length has no text: then it throws, having logged
    nothing, which takes records that are an object whose [length] is an
    array or an object.  It throws on [null] as well. *)
Theorem onFilterResult_returns payload t w :
  type_of payload = Some t →
  Table_onFilterResult payload w
  = (if is_ok (prop "status" payload)
     then match length_text
                  (or_empty_array (optional_records (prop "data" payload))) with
          | Some text =>
              (set_trace
                 (trace w ++
                  [Console Log
                     [AStr ("[Table] renderRecords — " +:+ text
                            +:+ " records (not yet implemented)")]]) w,
               Normal tt)
          | None =>
              (w, Throw (TypeError "Cannot convert object to primitive value"))
          end
     else (w, Normal tt))
  ∧ (length_text (or_empty_array (optional_records (prop "data" payload)))
     = None →
     ∃ members len,
       optional_records (prop "data" payload) = Some (VObj members)
       ∧ member "length" members = Some len
       ∧ to_string len = None
       ∧ ((∃ items, len = VArr items) ∨ ∃ inner, len = VObj inner))
  ∧ Table_onFilterResult VNull w
    = (w, Throw (TypeError
                   "Cannot read properties of null (reading 'status')")).
Proof.
  intros Htype. split; [|split; [|done]].
  - destruct payload; try done. unfold Table_onFilterResult. run.
    destruct (is_ok _); simpl; [|done].
    pose proof (or_empty_array_not_null
                  (optional_records (member "data" members))) as Hnot.
    unfold Table_renderRecords.
    destruct (or_empty_array _) eqn:Hrecords; try done;
      by destruct (length_text _).
  - destruct (optional_records _) as [records|]; [|done].
    destruct records as [|[]| | | |members]; try done. simpl.
    destruct (member "length" members) as [len|] eqn:Hlen; [|done].
    intros Hnone. exists members, len. repeat split; try done.
    by apply to_string_None.
Qed.

(** ** upload.js *)

Lemma drag_invariant e s :
  (0 ≤ dragCounter s ≤ 2 ^ 53)%Z →
  (visible s = true ↔ (0 < dragCounter s)%Z) →
  (0 ≤ dragCounter (Upload_drag e s) ≤ 2 ^ 53)%Z
  ∧ (visible (Upload_drag e s) = true ↔ (0 < dragCounter (Upload_drag e s))%Z).
Proof.
  intros Hrange Hvis. destruct e as [| | |file]; simpl.
  - unfold plus_plus. destruct (Z.eqb_spec (dragCounter s) (2 ^ 53)) as [Heq|Hne].
    + rewrite Heq in *. simpl. split; [lia|]. by rewrite Hvis.
    + destruct (Z.eqb_spec (dragCounter s + 1) 1) as [Hone|Hmore].
      * split; [lia|]. split; [lia|done].
      * split; [lia|]. rewrite Hvis. lia.
  - destruct (Z.leb_spec (dragCounter s - 1) 0); simpl.
    + split; [lia|]. split; [done|lia].
    + split; [lia|]. rewrite Hvis. lia.
  - done.
  - split; [lia|]. split; [done|lia].
Qed.

Lemma drag_uploading e s :
  uploading (Upload_drag e s) = uploading s ++ dropped_first e.
Proof.
  destruct e as [| | |[[|file files]|]]; simpl; try done;
    try by rewrite app_nil_r.
  by destruct (dragCounter s - 1 <=? 0)%Z; simpl; rewrite app_nil_r.
Qed.

(** X14.  The drop overlay is shown exactly while the counter of nested
    drags is positive, and the counter never goes below zero however the
    enter and leave events are paired.  Of each drop the first file only is
    handed to [uploadFile], in the order of the drops: a drop of several
    files hands over one, and as many files as were dropped beyond the
    first of their drop are never handed over. *)
Theorem drag_overlay_tracks_counter es :
  (0 ≤ dragCounter (foldl (fun s e => Upload_drag e s) Upload_initDragDrop es)
   ≤ 2 ^ 53)%Z
  ∧ (visible (foldl (fun s e => Upload_drag e s) Upload_initDragDrop es) = true
     ↔ (0 < dragCounter
              (foldl (fun s e => Upload_drag e s) Upload_initDragDrop es))%Z)
  ∧ uploading (foldl (fun s e => Upload_drag e s) Upload_initDragDrop es)
    = concat (map dropped_first es)
  ∧ length (uploading
              (foldl (fun s e => Upload_drag e s) Upload_initDragDrop es))
    + length (concat (map (fun e => drop 1 (dropped e)) es))
    = length (concat (map dropped es)).
Proof.
  assert ((0 ≤ dragCounter
                 (foldl (fun s e => Upload_drag e s) Upload_initDragDrop es)
           ≤ 2 ^ 53)%Z
          ∧ (visible (foldl (fun s e => Upload_drag e s) Upload_initDragDrop es)
             = true
             ↔ (0 < dragCounter
                      (foldl (fun s e => Upload_drag e s)
                         Upload_initDragDrop es))%Z)
          ∧ uploading (foldl (fun s e => Upload_drag e s) Upload_initDragDrop es)
            = concat (map dropped_first es)) as (Hrange & Hvis & Hup).
  { induction es as [|e es IH] using rev_ind; simpl.
    - split; [lia|]. split; [|done]. split; [done|lia].
    - rewrite foldl_app, map_app, concat_app. simpl.
      destruct IH as (Hrange & Hvis & Hup).
      destruct (drag_invariant e _ Hrange Hvis) as [Hrange' Hvis'].
      split; [done|]. split; [done|].
      by rewrite drag_uploading, Hup, app_nil_r. }
  split; [done|]. split; [done|]. split; [done|]. rewrite Hup. clear.
  induction es as [|e es IH]; simpl; [done|].
  rewrite !length_app. unfold dropped_first at 1.
  rewrite <- (take_drop 1 (dropped e)) at 3. rewrite length_app. lia.
Qed.

(** ** views.js and map.js *)

Lemma activate_activate v v' els :
  activate v (activate v' els) = activate v els.
Proof.
  unfold activate. rewrite map_map. by apply map_ext.
Qed.

(** What [Map.init] and [Map.onPanelVisible] leave alone. *)
Lemma Map_init_views p :
  current (Map_init p).1 = current p ∧ panels (Map_init p).1 = panels p
  ∧ buttons (Map_init p).1 = buttons p
  ∧ map_container (Map_init p).1 = map_container p.
Proof.
  destruct p as [c ps bs l i m d]. unfold Map_init. simpl. by destruct i, m.
Qed.

Lemma Map_onPanelVisible_views p :
  current (Map_onPanelVisible p).1 = current p
  ∧ panels (Map_onPanelVisible p).1 = panels p
  ∧ buttons (Map_onPanelVisible p).1 = buttons p
  ∧ map_container (Map_onPanelVisible p).1 = map_container p.
Proof.
  unfold Map_onPanelVisible.
  destruct (initialized p) eqn:Hinit; simpl; [by destruct (leaflet p)|].
  apply Map_init_views.
Qed.

Lemma Views_switchTo_views view p ps bs :
  panels p = activate (current p) ps → buttons p = activate (current p) bs →
  current (Views_switchTo view p).1 = view
  ∧ panels (Views_switchTo view p).1 = activate view ps
  ∧ buttons (Views_switchTo view p).1 = activate view bs.
Proof.
  intros Hps Hbs. unfold Views_switchTo. case_bool_decide as Hsame.
  - by subst view.
  - case_bool_decide.
    + destruct (Map_onPanelVisible_views
                  {| current := view; panels := activate view (panels p);
                     buttons := activate view (buttons p);
                     leaflet := leaflet p; initialized := initialized p;
                     map_container := map_container p; did := did p |})
        as (-> & -> & -> & _). simpl.
      by rewrite Hps, Hbs, !activate_activate.
    + simpl. by rewrite Hps, Hbs, !activate_activate.
Qed.

(** X15.  After [Views.init()] and any clicks, whether or not the map could
    be created, the view shown is the last one asked for (the map when none
    was), and the panels and buttons with the class [active] are exactly
    those whose [data-view] is that view. *)
Theorem views_active_is_current clicks ps bs container :
  current (Views_session clicks (page_loaded ps bs container))
  = default (Some "map") (last clicks)
  ∧ panels (Views_session clicks (page_loaded ps bs container))
    = activate (default (Some "map") (last clicks)) ps
  ∧ buttons (Views_session clicks (page_loaded ps bs container))
    = activate (default (Some "map") (last clicks)) bs.
Proof.
  unfold Views_session.
  induction clicks as [|view clicks IH] using rev_ind.
  - simpl. unfold Views_init, Map_init. simpl. by destruct container.
  - rewrite foldl_app, last_snoc. simpl.
    destruct IH as (Hc & Hps & Hbs).
    rewrite <- Hc in Hps, Hbs.
    apply (Views_switchTo_views view _ ps bs Hps Hbs).
Qed.

Lemma map_settled_init ps bs container :
  map_settled container 0 (Views_init (page_loaded ps bs container)).1
  ∧ current (Views_init (page_loaded ps bs container)).1 = Some "map".
Proof.
  unfold Views_init, Map_init, map_settled. simpl.
  by destruct container; simpl; repeat split.
Qed.

Lemma map_settled_switchTo container n view p :
  map_settled container n p →
  map_settled container
    (n + if returns_to_map (current p) view then 1 else 0)
    (Views_switchTo view p).1
  ∧ current (Views_switchTo view p).1 = view.
Proof.
  intros (Hinit & Hleaf & Hcont & Hdid).
  unfold Views_switchTo, Map_onPanelVisible, returns_to_map.
  destruct (decide (view = current p)) as [Hsame|Hsame].
  - rewrite !(bool_decide_eq_true_2 (view = current p)) by done.
    cbn [negb]. rewrite andb_false_r, Nat.add_0_r. by repeat split.
  - rewrite !(bool_decide_eq_false_2 (view = current p)) by done.
    cbn [negb]. rewrite andb_true_r. case_bool_decide as Hmap; simpl.
    + rewrite Hinit, Hleaf. simpl. destruct container; simpl.
      * repeat split; try done. unfold page_did. cbn [did].
        by rewrite Hdid, replicate_add, <- app_assoc.
      * rewrite Nat.add_1_r. by repeat split.
    + rewrite Nat.add_0_r. by repeat split.
Qed.

Lemma map_settled_session container n clicks p :
  map_settled container n p →
  map_settled container (n + returns (current p) clicks)
    (foldl (fun p view => (Views_switchTo view p).1) p clicks).
Proof.
  revert n p. induction clicks as [|view clicks IH]; intros n p Hset; simpl.
  - by rewrite Nat.add_0_r.
  - destruct (map_settled_switchTo _ _ view _ Hset) as [Hset' Hcur].
    specialize (IH _ _ Hset'). rewrite Hcur in IH.
    by rewrite Nat.add_assoc.
Qed.

(** X16.  Leaflet's map is constructed exactly once, by [Views.init()]:
    later switches to the map only ask it to recompute its size, once for
    each click that brings the map back from another view and never
    otherwise.  When the construction fails because the container is
    missing, it is never tried again: every later switch to the map does
    nothing. *)
Theorem map_created_once clicks ps bs container :
  initialized (Views_session clicks (page_loaded ps bs container)) = true
  ∧ leaflet (Views_session clicks (page_loaded ps bs container)) = container
  ∧ filter (fun e => is_L_map e = true)
      (did (Views_session clicks (page_loaded ps bs container))) = [L_map]
  ∧ did (Views_session clicks (page_loaded ps bs container))
    = if container
      then [L_map; L_tileLayer; L_marker; Later 80;
            PageLog "[Map] Leaflet initialised."]
           ++ replicate (returns (Some "map") clicks) InvalidateSize
      else [L_map].
Proof.
  assert (map_settled container (returns (Some "map") clicks)
            (Views_session clicks (page_loaded ps bs container))) as Hset.
  { unfold Views_session.
    destruct (map_settled_init ps bs container) as [Hset <-].
    by apply (map_settled_session container 0). }
  destruct Hset as (Hinit & Hleaf & _ & Hdid).
  split; [done|]. split; [done|]. split; [|by destruct container].
  destruct container.
  - rewrite Hdid, filter_app. simpl.
    assert (∀ k, filter (fun e => is_L_map e = true)
                   (replicate k InvalidateSize) = []) as ->; [|done].
    intros k. induction k as [|k IH]; [done|]. simpl.
    by rewrite filter_cons_False.
  - by rewrite Hdid.
Qed.

(** ** filters.js *)

Lemma white_le s : (white s ≤ length s)%nat.
Proof.
  unfold white. destruct s as [|a [|b [|c s]]]; simpl;
    repeat case_match; simpl; lia.
Qed.

Lemma white_back_le s : (white_back s ≤ length s)%nat.
Proof.
  unfold white_back. destruct s as [|a [|b [|c s]]]; simpl;
    repeat case_match; simpl; lia.
Qed.

Lemma white_app s u n : white s = S n → white (s ++ u) = S n.
Proof.
  unfold white. destruct s as [|a [|b [|c s]]]; simpl;
    repeat case_match; simplify_eq/=; done.
Qed.

Lemma strip_done head fuel s :
  (∀ s, (head s ≤ length s)%nat) → (length s ≤ fuel)%nat →
  head (strip head fuel s) = 0.
Proof.
  intros Hle. revert s. induction fuel as [|fuel IH]; intros s Hlen; simpl.
  - destruct s; [|simpl in Hlen; lia]. specialize (Hle []). simpl in Hle. lia.
  - destruct (head s) as [|n] eqn:Hhead; [done|].
    apply IH. rewrite length_drop. lia.
Qed.

Lemma strip_suffix head fuel s : ∃ k, s = k ++ strip head fuel s.
Proof.
  revert s. induction fuel as [|fuel IH]; intros s; simpl; [by exists []|].
  destruct (head s) as [|n]; [by exists []|].
  destruct (IH (drop (S n) s)) as [k Hk].
  exists (take (S n) s ++ k). by rewrite <- app_assoc, <- Hk, take_drop.
Qed.

(** The bytes of [trim s] are a stretch of those of [s], with no white
    space at either end. *)
Lemma trim_spec s :
  ∃ before after_,
    list_ascii_of_string s
    = before ++ list_ascii_of_string (trim s) ++ after_
    ∧ white (list_ascii_of_string (trim s)) = 0
    ∧ white_back (rev (list_ascii_of_string (trim s))) = 0.
Proof.
  unfold trim.
  set (bytes := list_ascii_of_string s).
  set (left := strip white (length bytes) bytes).
  set (right := strip white_back (length left) (rev left)).
  rewrite list_ascii_of_string_of_list_ascii.
  destruct (strip_suffix white (length bytes) bytes) as [before Hbefore].
  destruct (strip_suffix white_back (length left) (rev left)) as [k Hk].
  fold left in Hbefore. fold right in Hk.
  assert (left = rev right ++ rev k) as Hleft.
  { rewrite <- (rev_involutive left), Hk. by rewrite rev_app_distr. }
  exists before, (rev k). split; [by rewrite <- Hleft|]. split.
  - destruct (white (rev right)) as [|n] eqn:Hw; [done|].
    apply (white_app _ (rev k)) in Hw. rewrite <- Hleft in Hw.
    unfold left in Hw. rewrite strip_done in Hw; [done|apply white_le|done].
  - rewrite rev_involutive. unfold right.
    apply strip_done; [apply white_back_le|by rewrite length_rev].
Qed.

Lemma split_commas_clean s piece :
  piece ∈ split_commas s → ","%char ∉ piece.
Proof.
  revert piece. induction s as [|c s IH]; intros piece; simpl.
  - intros ->%list_elem_of_singleton. by apply not_elem_of_nil.
  - destruct (Ascii.eqb_spec c ",") as [->|Hne].
    + intros [->|Hin]%elem_of_cons; [by apply not_elem_of_nil|by apply IH].
    + destruct (split_commas s) as [|first rest]; simpl.
      * intros ->%list_elem_of_singleton.
        intros Heq%list_elem_of_singleton. congruence.
      * intros [->|Hin]%elem_of_cons.
        -- intros [Heq|Hin]%elem_of_cons; [congruence|].
           revert Hin. apply IH. by left.
        -- apply IH. by right.
Qed.

(** X17.  [parseSquawks] never returns an empty array, [null] takes its
    place, as it does for the empty string; and the codes of an array it
    returns are never empty, contain no comma and neither start nor end
    with white space. *)
Theorem parseSquawks_clean raw :
  Filters_parseSquawks "" = None
  ∧ match Filters_parseSquawks raw with
    | None => True
    | Some codes =>
        codes ≠ []
        ∧ ∀ code, code ∈ codes →
            code ≠ ""
            ∧ (","%char ∉ list_ascii_of_string code)
            ∧ white (list_ascii_of_string code) = 0
            ∧ white_back (rev (list_ascii_of_string code)) = 0
    end.
Proof.
  split; [done|]. unfold Filters_parseSquawks.
  destruct (String.eqb raw ""); [done|].
  set (pieces := split_commas (list_ascii_of_string raw)).
  destruct (filter _ _) as [|c0 cs] eqn:Hcodes; simpl; [done|].
  split; [done|]. intros code Hin. rewrite <- Hcodes in Hin.
  apply list_elem_of_filter in Hin as [Hne Hin].
  apply list_elem_of_fmap in Hin as (piece & -> & Hpiece).
  split; [done|].
  destruct (trim_spec (string_of_list_ascii piece))
    as (before & after_ & Hbytes & Hleft & Hright).
  split; [|done]. intros Hcomma.
  apply (split_commas_clean _ _ Hpiece).
  rewrite list_ascii_of_string_of_list_ascii in Hbytes. rewrite Hbytes.
  apply elem_of_app. right. apply elem_of_app. by left.
Qed.

Lemma nonempty_Some x y : nonempty x = Some y → y = x ∧ x ≠ "".
Proof.
  unfold nonempty. destruct (String.eqb_spec x ""); [done|].
  by intros [= <-].
Qed.

Lemma or_null_Some {A} (v l : list A) : or_null v = Some l → l = v ∧ v ≠ [].
Proof. destruct v; [done|]. by intros [= <-]. Qed.

(** What [collect] never returns: an empty string or an empty array. *)
Lemma collect_clean dom :
  time_start (Filters_collect dom) ≠ Some ""
  ∧ time_end (Filters_collect dom) ≠ Some ""
  ∧ callsigns (Filters_collect dom) ≠ Some []
  ∧ categories (Filters_collect dom) ≠ Some []
  ∧ squawks (Filters_collect dom) ≠ Some [].
Proof.
  simpl. repeat split.
  - by intros [<- H]%nonempty_Some.
  - by intros [<- H]%nonempty_Some.
  - unfold Filters_getTagValues. destruct (tagboxes dom !! _); [|done].
    by intros [<- H]%or_null_Some.
  - unfold Filters_getChecked. by intros [<- H]%or_null_Some.
  - unfold Filters_parseSquawks. destruct (String.eqb _ _); [done|].
    by intros [<- H]%or_null_Some.
Qed.

Lemma count_sent_entries f :
  time_start f ≠ Some "" → time_end f ≠ Some "" →
  callsigns f ≠ Some [] → categories f ≠ Some [] → squawks f ≠ Some [] →
  Filters_count f = length (sent_entries f).
Proof.
  destruct f as [ts te amin amax cs cats sq]. unfold Filters_count,
    sent_entries, entries. simpl. intros Hts Hte Hcs Hcats Hsq.
  destruct ts as [ts|], te as [te|], amin, amax,
    cs as [[|? ?]|], cats as [[|? ?]|], sq as [[|? ?]|]; try done; simpl;
    unfold nonempty;
    repeat match goal with
    | |- context [String.eqb ?x ""] =>
        destruct (String.eqb_spec x ""); [congruence|]
    end; done.
Qed.

(** X18.  The number on the badge is the number of filter entries
    [applyFilters] sends beside the action, at most seven, and the badge is
    hidden exactly when there is none; without the badge element nothing
    is shown. *)
Theorem badge_counts_sent_fields dom :
  Filters_payload (Filters_collect dom)
  = VObj (("action", VStr "apply_filters")
            :: sent_entries (Filters_collect dom))
  ∧ (length (sent_entries (Filters_collect dom)) ≤ 7)%nat
  ∧ pill (Filters_updateBadge dom)
    = (fun _ => (pretty (length (sent_entries (Filters_collect dom))),
                 if bool_decide (sent_entries (Filters_collect dom) = [])
                 then "none" else "inline-flex")) <$> pill dom.
Proof.
  split; [done|].
  destruct (collect_clean dom) as (Hts & Hte & Hcs & Hcats & Hsq).
  pose proof (count_sent_entries _ Hts Hte Hcs Hcats Hsq) as Hcount.
  split.
  - unfold sent_entries.
    assert (∀ {A B} (f : A → option B) l,
              (length (omap f l) ≤ length l)%nat) as Hle.
    { intros A B f l. induction l as [|x l IH]; csimpl; [done|].
      destruct (f x); simpl; lia. }
    etrans; [apply Hle|]. done.
  - unfold Filters_updateBadge. rewrite Hcount.
    destruct (pill dom) eqn:Hp; simpl; [|done]. do 3 f_equal.
    by destruct (sent_entries (Filters_collect dom)).
Qed.

Lemma sent_entries_keys f :
  (sent_entries f).*1
  `sublist_of` ["time_start"; "time_end"; "altitude_min"; "altitude_max";
                "callsigns"; "categories"; "squawks"].
Proof.
  destruct f as [[?|] [?|] [?|] [?|] [?|] [?|] [?|]];
    unfold sent_entries, entries; simpl;
    repeat first [ apply sublist_nil_l | apply sublist_skip
                 | apply sublist_cons ].
Qed.

(** X19.  [applyFilters] sends one frame when the socket is open, the
    payload it built, and otherwise sends nothing and logs two warnings,
    that of [WS.send] and its own.  The payload starts with the action
    and carries only filters that are set: its keys are distinct filter
    names, in the order of [collect], and no value is [null], an empty
    string or an empty array. *)
Theorem applyFilters_sends_set_filters dom w :
  Filters_applyFilters dom w
  = (if is_open w
     then set_trace
            (trace w ++
             [Transmit (JSON_stringify (Filters_payload (Filters_collect dom)))])
            w
     else set_trace
            (trace w ++
             [Console Warn [AStr "[WS] Cannot send — socket not open:";
                            AVal (Filters_payload (Filters_collect dom))];
              Console Warn [AStr "[Filters] WS not ready."]]) w,
     Normal tt)
  ∧ (sent_entries (Filters_collect dom)).*1
    `sublist_of` ["time_start"; "time_end"; "altitude_min"; "altitude_max";
                  "callsigns"; "categories"; "squawks"]
  ∧ NoDup ("action" :: (sent_entries (Filters_collect dom)).*1)
  ∧ ∀ k v, (k, v) ∈ sent_entries (Filters_collect dom) →
      v ≠ VNull ∧ v ≠ VStr "" ∧ v ≠ VArr [].
Proof.
  split; [|split; [apply sent_entries_keys|split]].
  - unfold Filters_applyFilters, send, socket_send, is_open. run.
    destruct (socket w) as [ws|]; simpl; [|by rewrite <- app_assoc].
    destruct (readyState ws =? OPEN)%Z eqn:Hopen; simpl;
      [|by rewrite <- app_assoc].
    apply Z.eqb_eq in Hopen. by rewrite Hopen.
  - pose proof (sent_entries_keys (Filters_collect dom)) as Hsub.
    assert (NoDup ["action"; "time_start"; "time_end"; "altitude_min";
                   "altitude_max"; "callsigns"; "categories"; "squawks"])
      as Hnames by (by apply (bool_decide_unpack _)).
    eapply sublist_NoDup; [exact Hnames|]. by apply sublist_skip.
  - destruct (collect_clean dom) as (Hts & Hte & Hcs & Hcats & Hsq).
    intros k v Hin. unfold sent_entries in Hin.
    apply list_elem_of_omap in Hin as ([k' o] & Hin & Hv). simpl in Hv.
    destruct o as [v'|]; [|done]. injection Hv as <- <-.
    unfold entries in Hin.
    repeat (apply elem_of_cons in Hin as [[= -> Ho]|Hin]);
      try (by apply elem_of_nil in Hin);
      match type of Ho with
      | _ = ?f <$> ?x => destruct x as [x0|] eqn:Hx; [|done];
                        injection Ho as ->
      end; repeat split; try done.
    + intros [= ->]. exact (Hts Hx).
    + intros [= ->]. exact (Hte Hx).
    + unfold strings. destruct x0; [destruct (Hcs Hx)|done].
    + unfold strings. destruct x0; [destruct (Hcats Hx)|done].
    + unfold strings. destruct x0; [destruct (Hsq Hx)|done].
Qed.

Lemma collect_updateBadge dom :
  Filters_collect (Filters_updateBadge dom) = Filters_collect dom.
Proof. unfold Filters_updateBadge. by destruct (pill dom). Qed.

Lemma inputs_updateBadge dom :
  inputs (Filters_updateBadge dom) = inputs dom.
Proof. unfold Filters_updateBadge. by destruct (pill dom). Qed.

Lemma checkboxes_updateBadge dom :
  checkboxes (Filters_updateBadge dom) = checkboxes dom.
Proof. unfold Filters_updateBadge. by destruct (pill dom). Qed.

Lemma tags_updateBadge dom :
  callsign_tags (Filters_updateBadge dom) = callsign_tags dom.
Proof. unfold Filters_updateBadge. by destruct (pill dom). Qed.

Lemma tags_set_tags tags dom :
  callsign_tags (set_tags "f-callsign-tags" tags dom)
  = if tagboxes dom !! "f-callsign-tags" is Some _ then tags else [].
Proof.
  unfold callsign_tags, set_tags. simpl. rewrite lookup_alter_eq.
  by destruct (tagboxes dom !! "f-callsign-tags").
Qed.










Lemma tags_resetFilters dom : callsign_tags (Filters_resetFilters dom) = [].
Proof.
  unfold Filters_resetFilters, Filters_clearTags.
  rewrite tags_updateBadge, tags_set_tags. by destruct (_ !! _).
Qed.





Lemma reset_inputs ids id dom :
  inputs (foldl (fun d id => set_input id "" d) dom ids) !! id
  = if bool_decide (id ∈ ids) then (fun _ => "") <$> inputs dom !! id
    else inputs dom !! id.
Proof.
  induction ids as [|i ids IH] using rev_ind; [done|].
  rewrite foldl_app. simpl. destruct (decide (i = id)) as [->|Hne].
  - rewrite lookup_alter_eq, IH.
    rewrite (bool_decide_eq_true_2 (id ∈ ids ++ [id]))
      by (apply elem_of_app; right; by left).
    case_bool_decide; [|done]. by destruct (inputs dom !! id).
  - rewrite lookup_alter_ne by done. rewrite IH.
    rewrite (bool_decide_ext (id ∈ ids ++ [i]) (id ∈ ids)); [done|].
    rewrite elem_of_app, list_elem_of_singleton.
    split; [intros [?| ->]; [done|by destruct Hne]|by left].
Qed.

Lemma check_all_categories boxes :
  map box_value
    (filter (fun b => box_group b = "f-categories" ∧ box_checked b = true)
       (map (fun b =>
               if String.eqb (box_group b) "f-categories"
               then {| box_group := box_group b; box_value := box_value b;
                       box_checked := true |}
               else b) boxes))
  = map box_value (filter (fun b => box_group b = "f-categories") boxes).
Proof.
  induction boxes as [|b boxes IH]; [done|]. simpl.
  destruct (String.eqb_spec (box_group b) "f-categories") as [Heq|Hne].
  - rewrite filter_cons_True by done. rewrite (filter_cons_True _ b) by done.
    simpl. by rewrite IH.
  - rewrite filter_cons_False by (by intros [? _]).
    by rewrite (filter_cons_False _ b) by done.
Qed.

Lemma resetFilters_badge dom :
  ∃ d, Filters_resetFilters dom = Filters_updateBadge d ∧ pill d = pill dom.
Proof. eexists. split; [reflexivity|]. done. Qed.

(** X21.  After a reset [collect] reports no filter but the categories,
    which are all the boxes of the category group, so the badge shows 1
    when the page has such a box and is hidden, showing 0, when it has
    none: a reset never brings the count of active filters to zero on a
    page with category boxes. *)
Theorem reset_keeps_categories dom :
  Filters_collect (Filters_resetFilters dom)
  = {| time_start := None; time_end := None;
       altitude_min := None; altitude_max := None; callsigns := None;
       categories := or_null (map box_value (category_boxes dom));
       squawks := None |}
  ∧ pill (Filters_resetFilters dom)
    = (fun _ => if category_boxes dom is [] then ("0", "none")
                else ("1", "inline-flex")) <$> pill dom.
Proof.
  assert (∀ id, id ∈ ["f-time-start"; "f-time-end"; "f-alt-min"; "f-alt-max";
                      "f-squawk"] →
            Filters_val (Filters_resetFilters dom) id = ""
            ∧ Filters_num (Filters_resetFilters dom) id = None) as Hin.
  { intros id Hid. unfold Filters_val, Filters_num, Filters_resetFilters.
    rewrite inputs_updateBadge. unfold Filters_clearTags, set_tags.
    cbn [inputs]. rewrite reset_inputs, bool_decide_eq_true_2 by done.
    by destruct (inputs dom !! id). }
  assert (Filters_collect (Filters_resetFilters dom)
          = {| time_start := None; time_end := None;
               altitude_min := None; altitude_max := None; callsigns := None;
               categories := or_null (map box_value (category_boxes dom));
               squawks := None |}) as Hcollect.
  { unfold Filters_collect.
    destruct (Hin "f-time-start") as [-> _]; [by apply (bool_decide_unpack _)|].
    destruct (Hin "f-time-end") as [-> _]; [by apply (bool_decide_unpack _)|].
    destruct (Hin "f-alt-min") as [_ ->]; [by apply (bool_decide_unpack _)|].
    destruct (Hin "f-alt-max") as [_ ->]; [by apply (bool_decide_unpack _)|].
    destruct (Hin "f-squawk") as [-> _]; [by apply (bool_decide_unpack _)|].
    f_equal.
    - pose proof (tags_resetFilters dom) as Htags.
      unfold callsign_tags in Htags. unfold Filters_getTagValues.
      destruct (tagboxes _ !! "f-callsign-tags") as [box|]; [|done].
      simpl in Htags. by rewrite Htags.
    - unfold Filters_getChecked, Filters_resetFilters, category_boxes.
      rewrite checkboxes_updateBadge. simpl.
      by rewrite check_all_categories. }
  split; [done|].
  destruct (resetFilters_badge dom) as (d & Hd & Hpill).
  rewrite Hd in *. rewrite collect_updateBadge in Hcollect.
  unfold Filters_updateBadge. rewrite Hcollect, Hpill.
  destruct (pill dom); simpl; [|by rewrite Hpill].
  by destruct (map box_value (category_boxes dom)) eqn:Hmap;
    destruct (category_boxes dom).
Qed.

End WS.

(** C5.  Whatever the subscribers do, for every frame and every state: the
    listener ends as it would if no subscriber threw, it calls the same
    subscribers with the same payloads in the same order as it would then,
    and every call that throws is followed at once by the log of its
    exception.  For a frame that is dispatched the calls are those of all
    subscribers of its type and then of all wildcard subscribers; and a
    frame for which any subscriber is called is dispatched: the listener
    returns, having called them all. *)
Theorem handler_errors_isolated Number_toString callback data w :
  (message_listener Number_toString callback data w).2
  = (message_listener Number_toString quiet data w).2
  ∧ invocations (dispatched Number_toString callback data w)
    = invocations (dispatched Number_toString quiet data w)
  ∧ caught_and_logged callback (trace w)
      (dispatched Number_toString callback data w)
  ∧ (∀ payload t k,
       JSON.parse data = Some payload →
       type_of payload = Some t →
       truthy t = true →
       to_string Number_toString t = Some k →
       k ∉ Object_prototype →
       (message_listener Number_toString callback data w).2 = Normal tt
       ∧ invocations (dispatched Number_toString callback data w)
         = map (fun cb => (cb, payload)) (subscribed k w)
           ++ map (fun cb => (cb, payload)) (subscribed "*" w))
  ∧ ∀ cb p,
      (cb, p) ∈ invocations (dispatched Number_toString callback data w) →
      ∃ payload t k,
        JSON.parse data = Some payload
        ∧ type_of payload = Some t
        ∧ to_string Number_toString t = Some k
        ∧ (message_listener Number_toString callback data w).2 = Normal tt
        ∧ invocations (dispatched Number_toString callback data w)
          = map (fun cb => (cb, payload)) (subscribed k w)
            ++ map (fun cb => (cb, payload)) (subscribed "*" w).
Proof.
  split; [|split; [|split; [|split]]].
  - destruct (message_cases Number_toString data w)
      as [H|[H|[(payload & H & Hnull & Hfalsy)
               |[(payload & t & H & Htype & Htruthy & Hk)
                |[(payload & t & k & H & Htype & Htruthy & Hk & Hkey)
                 |(payload & t & k & H & Htype & Htruthy & Hk & Hkey)]]]]].
    + by rewrite !message_not_json.
    + by rewrite !message_null.
    + by rewrite !(message_no_type _ _ _ _ _ H Hnull Hfalsy).
    + by rewrite !(message_unconvertible _ _ _ _ _ _ H Htype Htruthy Hk).
    + by rewrite !(message_inherited _ _ _ _ _ _ _ H Htype Htruthy Hk Hkey).
    + by rewrite !(message_dispatch _ _ _ _ _ _ _ H Htype Htruthy Hk Hkey).
  - destruct (message_cases Number_toString data w)
      as [H|[H|[(payload & H & Hnull & Hfalsy)
               |[(payload & t & H & Htype & Htruthy & Hk)
                |[(payload & t & k & H & Htype & Htruthy & Hk & Hkey)
                 |(payload & t & k & H & Htype & Htruthy & Hk & Hkey)]]]]].
    + by rewrite !(dispatched_of _ _ _ _ _ _ (message_not_json _ _ _ w H)).
    + by rewrite !(dispatched_nothing _ _ _ _ _ (message_null _ _ _ w H)).
    + by rewrite !(dispatched_of _ _ _ _ _ _
                     (message_no_type _ _ _ _ w H Hnull Hfalsy)).
    + by rewrite !(dispatched_nothing _ _ _ _ _
                     (message_unconvertible _ _ _ _ _ _ H Htype Htruthy Hk)).
    + by rewrite !(dispatched_nothing _ _ _ _ _
                     (message_inherited _ _ _ _ _ _ _ H Htype Htruthy Hk Hkey)).
    + destruct (dispatched_dispatch _ callback _ _ _ _ w H Htype Htruthy Hk Hkey)
        as (typed & wild & _ & _ & -> & Htyped & Hwild).
      destruct (dispatched_dispatch _ quiet _ _ _ _ w H Htype Htruthy Hk Hkey)
        as (typed' & wild' & _ & _ & -> & Htyped' & Hwild').
      by rewrite !invocations_app, Htyped, Hwild, Htyped', Hwild'.
  - apply message_logged.
  - intros payload t k Hparse Htype Htruthy Hk Hkey.
    apply (not_inherited _ w) in Hkey. split.
    + by rewrite (message_dispatch _ _ _ _ _ _ _ Hparse Htype Htruthy Hk Hkey).
    + destruct (dispatched_dispatch _ callback _ _ _ _ w
                  Hparse Htype Htruthy Hk Hkey)
        as (typed & wild & _ & _ & -> & Htyped & Hwild).
      by rewrite invocations_app, Htyped, Hwild.
  - intros cb p Hin.
    destruct (message_cases Number_toString data w)
      as [H|[H|[(payload & H & Hnull & Hfalsy)
               |[(payload & t & H & Htype & Htruthy & Hk)
                |[(payload & t & k & H & Htype & Htruthy & Hk & Hkey)
                 |(payload & t & k & H & Htype & Htruthy & Hk & Hkey)]]]]].
    + rewrite (dispatched_of _ _ _ _ _ _ (message_not_json _ _ _ w H)) in Hin.
      by apply elem_of_nil in Hin.
    + rewrite (dispatched_nothing _ _ _ _ _ (message_null _ _ _ w H)) in Hin.
      by apply elem_of_nil in Hin.
    + rewrite (dispatched_of _ _ _ _ _ _
                 (message_no_type _ _ _ _ w H Hnull Hfalsy)) in Hin.
      by apply elem_of_nil in Hin.
    + rewrite (dispatched_nothing _ _ _ _ _
                 (message_unconvertible _ _ _ _ _ w H Htype Htruthy Hk)) in Hin.
      by apply elem_of_nil in Hin.
    + rewrite (dispatched_nothing _ _ _ _ _
                 (message_inherited _ _ _ _ _ _ w H Htype Htruthy Hk Hkey))
        in Hin.
      by apply elem_of_nil in Hin.
    + exists payload, t, k. repeat split; try done.
      * by rewrite (message_dispatch _ _ _ _ _ _ _ H Htype Htruthy Hk Hkey).
      * destruct (dispatched_dispatch _ callback _ _ _ _ w
                    H Htype Htruthy Hk Hkey)
          as (typed & wild & _ & _ & -> & Htyped & Hwild).
        by rewrite invocations_app, Htyped, Hwild.
Qed.

(** ** Concrete runs *)

(** C2 fails as stated: the wildcard subscriber 7 is registered and the frame
    decodes, with the empty string as its [type]; the listener logs the
    missing-type warning and calls nobody. *)
Lemma empty_type_skips_wildcard :
  subscribed "*" (subscribe_all [("*", 7)] (boot None)) = [7]
  ∧ JSON.parse (dq "{'type':''}") = Some (VObj [("type", VStr "")])
  ∧ dispatched Sample.Number_toString Sample.callback (dq "{'type':''}")
      (subscribe_all [("*", 7)] (boot None))
    = [Console Warn [AStr "[WS] No type in message:";
                     AVal (VObj [("type", VStr "")])]].
Proof. by vm_compute. Qed.

Lemma typed_then_wildcard_witness :
  invocations
    (dispatched Sample.Number_toString Sample.callback
       (dq "{'type':'apply_filters_result','status':'ok','data':{'records':[]}}")
       (subscribe_all [("apply_filters_result", 1); ("*", 2)] (boot None)))
  = [(1, VObj [("type", VStr "apply_filters_result"); ("status", VStr "ok");
               ("data", VObj [("records", VArr [])])]);
     (2, VObj [("type", VStr "apply_filters_result"); ("status", VStr "ok");
               ("data", VObj [("records", VArr [])])])].
Proof.
  refine (proj1 (proj2
    (typed_then_wildcard Sample.Number_toString Sample.callback
       (dq "{'type':'apply_filters_result','status':'ok','data':{'records':[]}}")
       (VObj [("type", VStr "apply_filters_result"); ("status", VStr "ok");
              ("data", VObj [("records", VArr [])])])
       (VStr "apply_filters_result") "apply_filters_result"
       (subscribe_all [("apply_filters_result", 1); ("*", 2)] (boot None))
       _ _ _ _ _))).
  - by vm_compute.
  - reflexivity.
  - reflexivity.
  - reflexivity.
  - by apply (bool_decide_unpack _).
Defined.

Lemma one_pending_reconnect_witness :
  timers (step Sample.Number_toString Sample.JSON_stringify Sample.callback
            (SocketClose 1006 "")
            (step Sample.Number_toString Sample.JSON_stringify Sample.callback
               SocketOpen (boot None)))
  = [(1, 3000%Z)].
Proof.
  refine (proj1 (proj2
    (one_pending_reconnect Sample.Number_toString Sample.JSON_stringify
       Sample.callback
       (step Sample.Number_toString Sample.JSON_stringify Sample.callback
          SocketOpen (boot None))
       _) 1006%Z "")).
  apply reachable_step, reachable_boot.
Defined.

(** C6 fails as stated: 4 is subscribed under ["x"] and under ["*"];
    after [off("x", 4)] the array of ["x"] is empty, and a frame of type
    ["x"] still calls 4, in the wildcard pass. *)
Lemma off_keeps_wildcard_calls :
  subscribed "x"
    (after (off "x" 4) (subscribe_all [("x", 4); ("*", 4)] (boot None))) = []
  ∧ dispatched Sample.Number_toString quiet (dq "{'type':'x'}")
      (after (off "x" 4) (subscribe_all [("x", 4); ("*", 4)] (boot None)))
    = [Invoke 4 (VObj [("type", VStr "x")])].
Proof. by vm_compute. Qed.

(** C7 fails as stated: 4 registered twice under ["*"] is called four times
    by one frame of type ["*"]; registered twice under the empty string, it
    is not called at all by a frame of that type. *)
Lemma star_twice_called_four_times :
  invocations
    (dispatched Sample.Number_toString quiet (dq "{'type':'*'}")
       (subscribe_all [("*", 4); ("*", 4)] (boot None)))
  = [(4, VObj [("type", VStr "*")]); (4, VObj [("type", VStr "*")]);
     (4, VObj [("type", VStr "*")]); (4, VObj [("type", VStr "*")])]
  ∧ subscribed "" (subscribe_all [("", 4); ("", 4)] (boot None)) = [4; 4]
  ∧ invocations
      (dispatched Sample.Number_toString quiet (dq "{'type':''}")
         (subscribe_all [("", 4); ("", 4)] (boot None)))
    = [].
Proof. by vm_compute. Qed.

Lemma on_twice_registers_twice_witness :
  subscribed "get_all_result"
    (after (on "get_all_result" 4) (after (on "get_all_result" 4) (boot None)))
  = [4; 4].
Proof.
  refine (proj1 (proj2 (proj2
    (on_twice_registers_twice Sample.Number_toString Sample.callback
       "get_all_result" 4 (boot None) _)))).
  by apply (bool_decide_unpack _).
Defined.

(** C8 fails as stated: once the socket has closed there is no socket, and
    [isConnected()] returns [null], not [false]. *)
Lemma isConnected_null_after_close :
  is_open (after (close_listener 1006 "") (boot None)) = false
  ∧ snd (isConnected (after (close_listener 1006 "") (boot None)))
    = Normal VNull.
Proof. by vm_compute. Qed.

Lemma falsy_type_dropped_witness :
  invocations
    (dispatched Sample.Number_toString Sample.callback (dq "{'type':0}")
       (subscribe_all [("0", 1); ("*", 2)] (boot None)))
  = [].
Proof.
  refine (proj1 (proj2
    (falsy_type_dropped Sample.Number_toString Sample.callback
       (dq "{'type':0}") [("type", VNum (Num false 0 0))]
       (VNum (Num false 0 0))
       (subscribe_all [("0", 1); ("*", 2)] (boot None)) _ _ _))).
  - by vm_compute.
  - reflexivity.
  - reflexivity.
Defined.

Lemma star_frame_runs_wildcard_twice_witness :
  invocations
    (dispatched Sample.Number_toString Sample.callback (dq "{'type':'*'}")
       (subscribe_all [("*", 1); ("*", 2)] (boot None)))
  = [(1, VObj [("type", VStr "*")]); (2, VObj [("type", VStr "*")]);
     (1, VObj [("type", VStr "*")]); (2, VObj [("type", VStr "*")])].
Proof.
  refine (proj2 (proj2
    (star_frame_runs_wildcard_twice Sample.Number_toString Sample.callback
       (dq "{'type':'*'}") (VObj [("type", VStr "*")])
       (subscribe_all [("*", 1); ("*", 2)] (boot None)) _ _))).
  - by vm_compute.
  - reflexivity.
Defined.

(** The slip the amended C2, C6 and C7 leave out: [handlers] is an object
    literal, so [handlers["toString"]] is the function it inherits.  A frame
    of that type throws before the wildcard pass, and [on] and [off] throw
    on that key. *)
Lemma toString_frame_throws :
  message_listener Sample.Number_toString Sample.callback
    (dq "{'type':'toString'}") (subscribe_all [("*", 7)] (boot None))
  = (subscribe_all [("*", 7)] (boot None),
     Throw (TypeError "(handlers[type] || []).forEach is not a function"))
  ∧ on "toString" 7 (boot None)
    = (boot None, Throw (TypeError "handlers[type].push is not a function"))
  ∧ off "toString" 7 (boot None)
    = (boot None, Throw (TypeError "handlers[type].filter is not a function")).
Proof. by vm_compute. Qed.

(** Scenario A: open, [send({action: "apply_filters", callsigns: ["IBE001"]})]
    returns [true] and transmits that payload, once. *)
Example send_when_open :
  send Sample.JSON_stringify
    (VObj [("action", VStr "apply_filters");
           ("callsigns", VArr [VStr "IBE001"])])
    (step Sample.Number_toString Sample.JSON_stringify Sample.callback
       SocketOpen (boot None))
  = (set_trace
       [Construct "ws://127.0.0.1:8765"; Console Log [AStr "[WS] Connected"];
        Transmit (dq "{'action':'apply_filters','callsigns':['IBE001']}")]
       (step Sample.Number_toString Sample.JSON_stringify Sample.callback
          SocketOpen (boot None)),
     Normal true).
Proof. by vm_compute. Qed.

(** Scenario B: closed, [send({action: "get_all"})] returns [false], transmits
    nothing and logs one warning. *)
Example send_when_closed :
  send Sample.JSON_stringify (VObj [("action", VStr "get_all")])
    (set_trace [] (after (close_listener 1006 "") (boot None)))
  = (set_trace
       [Console Warn [AStr "[WS] Cannot send — socket not open:";
                      AVal (VObj [("action", VStr "get_all")])]]
       (after (close_listener 1006 "") (boot None)),
     Normal false).
Proof. by vm_compute. Qed.

(** Scenario D: the text [not json] calls nobody and changes nothing but
    the log, which gets one warning. *)
Example not_json_dropped :
  message_listener Sample.Number_toString Sample.callback "not json"
    (set_trace [] (subscribe_all [("x", 1); ("*", 2)] (boot None)))
  = (set_trace [Console Warn [AStr "[WS] Non-JSON message:"; AStr "not json"]]
       (subscribe_all [("x", 1); ("*", 2)] (boot None)),
     Normal tt).
Proof. by vm_compute. Qed.

(** Scenario E: after a closure nothing reconnects until the timer fires;
    when it does, a new socket is connecting and no timer is left. *)
Example reconnect_when_timer_fires :
  let closed := step Sample.Number_toString Sample.JSON_stringify
                  Sample.callback (SocketClose 1006 "")
                  (step Sample.Number_toString Sample.JSON_stringify
                     Sample.callback SocketOpen (boot None)) in
  let again := step Sample.Number_toString Sample.JSON_stringify
                 Sample.callback (TimerFired 1) closed in
  socket closed = None ∧ timers closed = [(1, 3000%Z)]
  ∧ socket again = Some {| url := WS_URL; readyState := CONNECTING |}
  ∧ timers again = [].
Proof. by vm_compute. Qed.

(** ** Runs of the properties that have a precondition *)

Lemma registry_survives_witness :
  handlers
    (steps Sample.Number_toString Sample.JSON_stringify Sample.callback
       [SocketOpen; SocketMessage (dq "{'type':'x'}"); SocketClose 1006 "";
        TimerFired 1; ApiSend VNull]
       (subscribe_all [("x", 1); ("*", 2)] (boot None)))
  = handlers (subscribe_all [("x", 1); ("*", 2)] (boot None)).
Proof.
  refine (registry_survives Sample.Number_toString Sample.JSON_stringify
            Sample.callback
            [SocketOpen; SocketMessage (dq "{'type':'x'}");
             SocketClose 1006 ""; TimerFired 1; ApiSend VNull]
            (subscribe_all [("x", 1); ("*", 2)] (boot None)) _).
  reflexivity.
Defined.

Lemma only_close_schedules_witness :
  next_timer
    (steps Sample.Number_toString Sample.JSON_stringify Sample.callback
       [SocketOpen; SocketMessage "x"; TimerFired 5; ApiOn "x" 1]
       (boot None))
  = next_timer (boot None).
Proof.
  refine (proj2
    (only_close_schedules Sample.Number_toString Sample.JSON_stringify
       Sample.callback
       [SocketOpen; SocketMessage "x"; TimerFired 5; ApiOn "x" 1]
       (boot None) _)).
  reflexivity.
Defined.

Lemma open_cancels_reconnect_witness :
  timers
    (step Sample.Number_toString Sample.JSON_stringify Sample.callback
       SocketOpen
       (step Sample.Number_toString Sample.JSON_stringify Sample.callback
          (SocketClose 1006 "")
          (step Sample.Number_toString Sample.JSON_stringify Sample.callback
             SocketOpen (boot None))))
  = [].
Proof.
  refine (open_cancels_reconnect Sample.Number_toString Sample.JSON_stringify
            Sample.callback
            (step Sample.Number_toString Sample.JSON_stringify Sample.callback
               (SocketClose 1006 "")
               (step Sample.Number_toString Sample.JSON_stringify
                  Sample.callback SocketOpen (boot None)))
            _).
  apply reachable_step, reachable_step, reachable_boot.
Defined.

Lemma closed_until_timer_witness :
  socket
    (steps Sample.Number_toString Sample.JSON_stringify Sample.callback
       [SocketMessage (dq "{'type':'x'}"); ApiOn "x" 1; SocketError]
       (step Sample.Number_toString Sample.JSON_stringify Sample.callback
          (SocketClose 1006 "")
          (step Sample.Number_toString Sample.JSON_stringify Sample.callback
             SocketOpen (boot None))))
  = None.
Proof.
  refine (proj1
    (closed_until_timer Sample.Number_toString Sample.JSON_stringify
       Sample.callback 1006%Z ""
       [SocketMessage (dq "{'type':'x'}"); ApiOn "x" 1; SocketError]
       VNull
       (step Sample.Number_toString Sample.JSON_stringify Sample.callback
          SocketOpen (boot None))
       _)).
  reflexivity.
Defined.

Lemma timer_fires_reconnect_witness :
  socket
    (step Sample.Number_toString Sample.JSON_stringify Sample.callback
       (TimerFired 1)
       (step Sample.Number_toString Sample.JSON_stringify Sample.callback
          (SocketClose 1006 "")
          (step Sample.Number_toString Sample.JSON_stringify Sample.callback
             SocketOpen (boot None))))
  = Some {| url := WS_URL; readyState := CONNECTING |}.
Proof.
  refine (proj1 (proj1
    (timer_fires_reconnect Sample.Number_toString Sample.JSON_stringify
       Sample.callback 1
       (step Sample.Number_toString Sample.JSON_stringify Sample.callback
          (SocketClose 1006 "")
          (step Sample.Number_toString Sample.JSON_stringify Sample.callback
             SocketOpen (boot None)))
       _) _)).
  - apply reachable_step, reachable_step, reachable_boot.
  - by apply (bool_decide_unpack _).
Defined.

Lemma recovers_after_closure_witness :
  is_open
    (steps Sample.Number_toString Sample.JSON_stringify Sample.callback
       [SocketClose 1006 "";
        TimerFired
          (next_timer
             (step Sample.Number_toString Sample.JSON_stringify
                Sample.callback SocketOpen (boot None)));
        SocketOpen]
       (step Sample.Number_toString Sample.JSON_stringify Sample.callback
          SocketOpen (boot None)))
  = true.
Proof.
  refine (proj1
    (recovers_after_closure Sample.Number_toString Sample.JSON_stringify
       Sample.callback 1006%Z "" VNull
       (step Sample.Number_toString Sample.JSON_stringify Sample.callback
          SocketOpen (boot None))
       _)).
  apply reachable_step, reachable_boot.
Defined.

Lemma prototype_names_unusable_witness :
  on "constructor" 1 (boot None)
  = (boot None, Throw (TypeError "handlers[type].push is not a function")).
Proof.
  refine (proj1
    (prototype_names_unusable Sample.Number_toString Sample.JSON_stringify
       Sample.callback "constructor" 1 (boot None) _ _)).
  - apply reachable_boot.
  - by apply (bool_decide_unpack _).
Defined.

Lemma off_after_on_witness :
  subscribed "x"
    (after (off "x" 1)
       (after (on "x" 1) (subscribe_all [("x", 1); ("x", 2)] (boot None))))
  = filter (fun c : handler => c ≠ 1)
      (subscribed "x" (subscribe_all [("x", 1); ("x", 2)] (boot None))).
Proof.
  refine (proj1
    (off_after_on "x" 1 (subscribe_all [("x", 1); ("x", 2)] (boot None)) _)).
  by apply (bool_decide_unpack _).
Defined.

Lemma other_types_unaffected_witness :
  dispatched Sample.Number_toString Sample.callback (dq "{'type':'b'}")
    (after (on "a" 1) (subscribe_all [("b", 2)] (boot None)))
  = dispatched Sample.Number_toString Sample.callback (dq "{'type':'b'}")
      (subscribe_all [("b", 2)] (boot None)).
Proof.
  refine (proj1
    (other_types_unaffected Sample.Number_toString Sample.callback "a" 1
       (dq "{'type':'b'}") (subscribe_all [("b", 2)] (boot None)) _ _)).
  - done.
  - intros payload tv Hparse Htype. vm_compute in Hparse.
    injection Hparse as <-. vm_compute in Htype. injection Htype as <-.
    by vm_compute.
Defined.

Lemma onFilterResult_returns_witness :
  Table_onFilterResult Sample.Number_toString
    (VObj [("type", VStr "apply_filters_result"); ("status", VStr "ok");
           ("data", VObj [("records", VArr [VNull; VNull])])])
    (set_trace [] (boot None))
  = (set_trace
       [Console Log
          [AStr "[Table] renderRecords — 2 records (not yet implemented)"]]
       (boot None),
     Normal tt).
Proof.
  refine (proj1
    (onFilterResult_returns Sample.Number_toString
       (VObj [("type", VStr "apply_filters_result"); ("status", VStr "ok");
              ("data", VObj [("records", VArr [VNull; VNull])])])
       (VStr "apply_filters_result") (set_trace [] (boot None)) _)).
  reflexivity.
Defined.


(** The tags of that run: the comma and the white space are gone, the
    second entry is a duplicate, Backspace in the empty input takes the
    last tag and the click the first. *)
Example callsign_tags_run :
  callsign_tags <$>
    Filters_tag_events upper_ascii
      [KeyDown "Enter" " ib,e1 "; KeyDown "," "IBE1"; KeyDown "Enter" "vl2";
       KeyDown "Enter" "z"; KeyDown "Backspace" ""]
      empty_sidebar
  = Some ["IBE1"; "VL2"]
  ∧ callsign_tags <$>
      Filters_tag_events upper_ascii
        [KeyDown "Enter" " ib,e1 "; KeyDown "," "IBE1"; KeyDown "Enter" "vl2";
         KeyDown "Enter" "z"; KeyDown "Backspace" ""; ClickCross 0]
        empty_sidebar
    = Some ["VL2"]
  ∧ pill <$>
      Filters_tag_events upper_ascii
        [KeyDown "Enter" " ib,e1 "; KeyDown "," "IBE1"; KeyDown "Enter" "vl2";
         KeyDown "Enter" "z"; KeyDown "Backspace" ""; ClickCross 0]
        empty_sidebar
    = Some (Some ("1", "inline-flex")).
Proof. by vm_compute. Qed.

(** A value with markup is outside this description of the page: the
    run stops there. *)
Example markup_tag_not_followed :
  Filters_tag_events upper_ascii
    [KeyDown "Enter" "ab"; KeyDown "Enter" "<b class=filter-tag>x</b>"]
    empty_sidebar
  = None.
Proof. by vm_compute. Qed.

(** A type that is an object with a member [toString] has no key: the
    lookup throws, nobody is called, the wildcard subscriber included, and
    nothing is logged. *)
Example unconvertible_type_throws :
  JSON.parse (dq "{'type':{'toString':1}}")
  = Some (VObj [("type", VObj [("toString", VNum (Num false 1 0))])])
  ∧ message_listener Sample.Number_toString Sample.callback
      (dq "{'type':{'toString':1}}")
      (subscribe_all [("[object Object]", 2); ("*", 4)] (boot None))
    = (subscribe_all [("[object Object]", 2); ("*", 4)] (boot None),
       Throw (TypeError "Cannot convert object to primitive value"))
  ∧ invocations
      (dispatched Sample.Number_toString Sample.callback (dq "{'type':{}}")
         (subscribe_all [("[object Object]", 2); ("*", 4)] (boot None)))
    = [(2, VObj [("type", VObj [])]); (4, VObj [("type", VObj [])])].
Proof. by vm_compute. Qed.

(** The same for the table: records whose [length] has no text. *)
Example records_length_throws :
  Table_onFilterResult Sample.Number_toString
    (VObj [("type", VStr "get_all_result"); ("status", VStr "ok");
           ("data",
            VObj [("records",
                   VObj [("length",
                          VObj [("toString", VNum (Num false 1 0))])])])])
    (boot None)
  = (boot None, Throw (TypeError "Cannot convert object to primitive value")).
Proof. by vm_compute. Qed.

(** A drop of three files hands over the first; a drop without files
    hands over none. *)
Example drop_hands_over_first_file :
  uploading
    (foldl (fun s e => Upload_drag e s) Upload_initDragDrop
       [DragEnter; DragDrop (Some [7; 8; 9]); DragEnter; DragDrop (Some []);
        DragDrop None; DragDrop (Some [3])])
  = [7; 3].
Proof. by vm_compute. Qed.

(** Four clicks, two of which bring the map back. *)
Example two_returns_to_map :
  did (Views_session [Some "table"; Some "map"; Some "map"; None; Some "map"]
         (page_loaded [] [] true))
  = [L_map; L_tileLayer; L_marker; Later 80;
     PageLog "[Map] Leaflet initialised."; InvalidateSize; InvalidateSize].
Proof. by vm_compute. Qed.
